(** * state-labels: the label codec and the state operations

  A shallow embedding of [src/labels.ts] and [src/operations.ts]: the
  codec that turns a label name into a (key, value) pair and back, the
  value canonicalisation, and the [set] / [remove] operations together
  with the usage check that guards the deletion of a label from the
  repository.

  Strings are Stdlib strings; a character stands for one code unit of a
  JavaScript string.  The string methods the source calls ([startsWith],
  [substring], [indexOf], [length]) work code unit by code unit, so they
  are embedded character by character. *)

From Stdlib Require Import String Ascii List ZArith Lia Bool Arith.
From Stdlib Require Import DecimalString.
Import ListNotations.
Local Open Scope string_scope.

(** ** JavaScript string methods *)

Module JsString.

(** [s.startsWith(p)] *)
Fixpoint startsWith (s p : string) {struct p} : bool :=
  match p with
  | EmptyString => true
  | String c p' =>
      match s with
      | EmptyString => false
      | String d s' => Ascii.eqb d c && startsWith s' p'
      end
  end.

(** The first [n] code units of [s] (all of [s] when it is shorter). *)
Fixpoint take (n : nat) (s : string) : string :=
  match n, s with
  | S n', String c s' => String c (take n' s')
  | _, _ => EmptyString
  end.

(** [s] without its first [n] code units (empty when it is shorter). *)
Fixpoint drop (n : nat) (s : string) : string :=
  match n, s with
  | S n', String _ s' => drop n' s'
  | _, _ => s
  end.

(** [s.substring(a, b)]: both indices are clamped to the length of [s]
    and swapped when [a > b]. *)
Definition substring (s : string) (a b : nat) : string :=
  take (Nat.max a b - Nat.min a b) (drop (Nat.min a b) s).

(** [s.substring(a)]: the end index defaults to the length of [s]. *)
Definition substringFrom (s : string) (a : nat) : string :=
  substring s a (String.length s).

(** [s.indexOf(sep)]: the least index at which [sep] occurs in [s];
    [None] stands for JavaScript's [-1].  The empty string occurs at
    index 0 of every string. *)
Fixpoint indexOf (s sep : string) : option nat :=
  if startsWith s sep then Some 0
  else
    match s with
    | EmptyString => None
    | String _ s' => option_map S (indexOf s' sep)
    end.

(** A string is truthy when it is not empty. *)
Definition truthy (s : string) : bool :=
  match s with
  | EmptyString => false
  | String _ _ => true
  end.

(** [sep] occurs in [s] at index [n]. *)
Definition occursAt (sep s : string) (n : nat) : Prop :=
  exists a b, s = a ++ sep ++ b /\ String.length a = n.

(** [sep] occurs somewhere in [s]. *)
Definition occurs (sep s : string) : Prop :=
  exists n, occursAt sep s n.

End JsString.

Import JsString.

(** ** JavaScript numbers, as far as the source meets them *)

Module JsNumber.

Local Open Scope Z_scope.

(** The Number values [parseInt] can return: every one of them is NaN,
    a zero, an integer-valued double or an infinity. *)
Inductive Number :=
| NaN
| NegZero
| Int (z : Z)
| Infinity (negative : bool).

(** Rounding of a positive integer to the nearest double, ties to the
    even significand; [None] when the result overflows. *)
Definition roundToDouble (m : Z) : option Z :=
  if m <? 2 ^ 53 then Some m
  else
    let e := Z.log2 m - 52 in
    let q := Z.shiftr m e in
    let r := m - Z.shiftl q e in
    let half := 2 ^ (e - 1) in
    let q' :=
      if r <? half then q
      else if half <? r then q + 1
      else if Z.even q then q else q + 1 in
    let d := Z.shiftl q' e in
    if d <? 2 ^ 1024 then Some d else None.

(** White space and line terminators among the code units below 256. *)
Definition isWhiteSpace (c : ascii) : bool :=
  let n := Z.of_N (N_of_ascii c) in
  ((9 <=? n) && (n <=? 13)) || (n =? 32) || (n =? 160).

Fixpoint trimStart (s : string) : string :=
  match s with
  | String c s' => if isWhiteSpace c then trimStart s' else s
  | EmptyString => s
  end.

Definition digitValue (c : ascii) : option Z :=
  let n := Z.of_N (N_of_ascii c) in
  if (48 <=? n) && (n <=? 57) then Some (n - 48) else None.

(** The digits of the longest prefix of [s] made of decimal digits. *)
Fixpoint digitsPrefix (s : string) : list Z :=
  match s with
  | String c s' =>
      match digitValue c with
      | Some d => d :: digitsPrefix s'
      | None => []
      end
  | EmptyString => []
  end.

Definition mathIntOf (digits : list Z) : Z :=
  fold_left (fun acc d => 10 * acc + d) digits 0.

(** [parseInt(string, 10)]: leading white space is skipped, then an
    optional sign, then the longest run of decimal digits; the integer
    they denote is rounded to a double. *)
Definition parseInt10 (inputString : string) : Number :=
  let S := trimStart inputString in
  let negative :=
    match S with String "-" _ => true | _ => false end in
  let S :=
    match S with
    | String "-" rest | String "+" rest => rest
    | _ => S
    end in
  match digitsPrefix S with
  | [] => NaN
  | digits =>
      let mathInt := mathIntOf digits in
      if mathInt =? 0 then (if negative then NegZero else Int 0)
      else
        match roundToDouble mathInt with
        | Some d => Int (if negative then - d else d)
        | None => Infinity negative
        end
  end.

(** [Number.isNaN] *)
Definition isNaN (x : Number) : bool :=
  match x with NaN => true | _ => false end.

(** [x === y] on numbers: NaN equals nothing, and the two zeros are
    equal. *)
Definition strictEquals (x y : Number) : bool :=
  match x, y with
  | NaN, _ | _, NaN => false
  | NegZero, NegZero => true
  | NegZero, Int z | Int z, NegZero => z =? 0
  | Int a, Int b => a =? b
  | Infinity s, Infinity t => Bool.eqb s t
  | _, _ => false
  end.

Definition decimal (z : Z) : string :=
  NilZero.string_of_uint (N.to_uint (Z.to_N z)).

(** The decimal integers that round to the double [x] (at least 2^53)
    are those of an interval around it; it is closed when the
    significand of [x] is even.  The test is scaled by 4. *)
Definition roundsTo (x c : Z) : bool :=
  let e := Z.log2 x - 52 in
  let m := Z.shiftr x e in
  let below := if m =? 2 ^ 52 then 2 ^ e else 2 ^ (e + 1) in
  let lo := 4 * x - below in
  let hi := 4 * x + 2 ^ (e + 1) in
  if Z.even m then (lo <=? 4 * c) && (4 * c <=? hi)
  else (lo <? 4 * c) && (4 * c <? hi).

(** The multiple of the largest power of ten (at most [10 ^ j]) that
    rounds to [x]: the one nearest to [x], the even one on a tie. *)
Fixpoint shortest (j : nat) (x : Z) : Z :=
  let p := 10 ^ Z.of_nat j in
  let down := (x / p) * p in
  let up := down + p in
  let okDown := (0 <? down) && roundsTo x down in
  let okUp := roundsTo x up in
  let pick :=
    if okDown && okUp then
      if x - down <? up - x then Some down
      else if up - x <? x - down then Some up
      else if Z.even (down / p) then Some down else Some up
    else if okDown then Some down
    else if okUp then Some up
    else None in
  match pick, j with
  | Some c, _ => c
  | None, S j' => shortest j' x
  | None, O => x
  end.

Fixpoint stripTrailingZeros (z : Z) (fuel : nat) : Z :=
  match fuel with
  | S fuel' =>
      if (z mod 10 =? 0) && negb (z =? 0) then stripTrailingZeros (z / 10) fuel'
      else z
  | O => z
  end.

(** [Number::toString] of a positive integer-valued double, radix 10:
    the shortest digits that read back as [x], written out in full up
    to 21 digits and in exponent form beyond. *)
Definition positiveToString (x : Z) : string :=
  let c := if x <? 2 ^ 53 then x else shortest 330 x in
  let all := decimal c in
  let n := String.length all in
  if (n <=? 21)%nat then all
  else
    let s := decimal (stripTrailingZeros c n) in
    match s with
    | String d rest =>
        String d (match rest with EmptyString => "" | _ => "." ++ rest end)
        ++ "e+" ++ decimal (Z.of_nat (n - 1))
    | EmptyString => all
    end.

(** [Number.prototype.toString()] *)
Definition toString (x : Number) : string :=
  match x with
  | NaN => "NaN"
  | NegZero => "0"
  | Infinity negative => if negative then "-Infinity" else "Infinity"
  | Int z =>
      if z =? 0 then "0"
      else if z <? 0 then "-" ++ positiveToString (- z)
      else positiveToString z
  end.

End JsNumber.

(** ** src/labels.ts *)

Module Labels.

(** [interface Label]: optional fields are options; [description] may
    also be [null]. *)
Record Label := {
  name : string;
  color : option string;
  description : option (option string)
}.

(** The result object of [parseStateLabel]. *)
Record Parsed := {
  key : string;
  value : string
}.

Definition expectedPrefixOf (prefix separator : string) : string :=
  if truthy prefix then prefix ++ separator else "".

Definition parseStateLabel (labelName prefix separator : string)
  : option Parsed :=
  let expectedPrefix := expectedPrefixOf prefix separator in
  if negb (startsWith labelName expectedPrefix) then None
  else
    let remainder := substringFrom labelName (String.length expectedPrefix) in
    match indexOf remainder separator with
    | None => None
    | Some separatorIndex =>
        let key := substring remainder 0 separatorIndex in
        let value :=
          substringFrom remainder (separatorIndex + String.length separator) in
        Some {| key := key; value := value |}
    end.

Definition createStateLabelName (key value prefix separator : string)
  : string :=
  let prefixPart := if truthy prefix then prefix ++ separator else "" in
  prefixPart ++ key ++ separator ++ value.

Definition convertValue (value : string) : string :=
  let num := JsNumber.parseInt10 value in
  if negb (JsNumber.isNaN num) && String.eqb (JsNumber.toString num) value then
    JsNumber.toString num
  else value.

End Labels.

Import Labels.

(** The decoder as the specification words it: it also fails when the
    key portion before the first separator is empty. *)
Definition parseLabel_spec (name prefix separator : string) : option Parsed :=
  let expectedPrefix := if truthy prefix then prefix ++ separator else "" in
  if negb (startsWith name expectedPrefix) then None
  else
    let remainder := drop (String.length expectedPrefix) name in
    match indexOf remainder separator with
    | None => None
    | Some i =>
        if Nat.eqb i 0 then None
        else Some {| key := take i remainder;
                     value := drop (i + String.length separator) remainder |}
    end.


(** ** src/operations.ts *)

Module Operations.

(** An entry of the data returned by [issues.listForRepo]; the source
    reads nothing but its [number], an integer. *)
Record Issue := { number : Z }.

(** What a rejected call throws: an [Error] object with its message, or
    some other value ([error instanceof Error] tells them apart). *)
Inductive Thrown :=
| ErrorObject (message : string)
| OtherValue.

(** The requests the operations send to the hosting service. *)
Inductive Call :=
| ListForRepo (owner repo labels state : string) (per_page page : nat)
| SetLabels (owner repo : string) (issue_number : JsNumber.Number)
    (labels : list string)
| DeleteLabel (owner repo name : string).

(** Lines written through [core.warning] and [core.info]. *)
Inductive LogLine :=
| Warning (message : string)
| Info (message : string).

Section Service.

(** The state of the hosting service (the labels of every issue and
    the repository's label catalog); the operations never look inside
    it. *)
Context {W : Type}.

(** The REST client.  A repository holds finitely many issues, so the
    answer to a listing query is a finite sequence of pages, each a
    failure or the issues of that page, and every page past the last
    one is empty.  The two writing calls may fail and may change the
    service's state. *)
Record Octokit := {
  issues_listForRepo :
    W -> string -> string -> string -> string -> nat ->
    list (Thrown + list Issue);
  issues_setLabels :
    W -> string -> string -> JsNumber.Number -> list string ->
    option Thrown * W;
  issues_deleteLabel :
    W -> string -> string -> string -> option Thrown * W
}.

Record OperationContext := {
  octokit : Octokit;
  owner : string;
  repo : string;
  issueNumber : JsNumber.Number;
  prefix : string;
  separator : string;
  deleteUnusedLabels : bool
}.

(** [interface OperationOutput]: [value] and [state] are optional, and
    [value] may be [null]. *)
Record OperationOutput := {
  success : bool;
  value : option (option string);
  state : option string
}.

(** *** Asynchronous computations

  An [async] function runs against the service, leaves a trace of
  the calls it sent and of the lines it logged, and either returns
  or throws.  [OutOfFuel] only bounds the paging loop. *)

Record Env := {
  world : W;
  calls : list Call;
  log : list LogLine
}.

Inductive Outcome (A : Type) :=
| Returned (a : A)
| Threw (e : Thrown)
| OutOfFuel.
Arguments Returned {A} a.
Arguments Threw {A} e.
Arguments OutOfFuel {A}.

Definition Async (A : Type) : Type := Env -> Outcome A * Env.

Definition ret {A} (a : A) : Async A := fun env => (Returned a, env).

Definition bind {A B} (m : Async A) (k : A -> Async B) : Async B :=
  fun env =>
    match m env with
    | (Returned a, env') => k a env'
    | (Threw e, env') => (Threw e, env')
    | (OutOfFuel, env') => (OutOfFuel, env')
    end.

(** [try { body } catch (error) { handler }] *)
Definition tryCatch {A} (body : Async A) (handler : Thrown -> Async A)
  : Async A :=
  fun env =>
    match body env with
    | (Threw e, env') => handler e env'
    | r => r
    end.

Definition outOfFuel {A} : Async A := fun env => (OutOfFuel, env).

Definition sent (c : Call) (w : W) (env : Env) : Env :=
  {| world := w; calls := calls env ++ [c]; log := log env |}.

Definition logged (l : LogLine) (env : Env) : Env :=
  {| world := world env; calls := calls env; log := log env ++ [l] |}.

Definition core_warning (message : string) : Async unit :=
  fun env => (Returned tt, logged (Warning message) env).

Definition core_info (message : string) : Async unit :=
  fun env => (Returned tt, logged (Info message) env).

(** [await octokit.rest.issues.listForRepo({...})], giving [data] *)
Definition listForRepo (o : Octokit)
    (owner repo labels state : string) (per_page page : nat)
  : Async (list Issue) :=
  fun env =>
    let env' :=
      sent (ListForRepo owner repo labels state per_page page)
           (world env) env in
    let pages :=
      issues_listForRepo o (world env) owner repo labels state per_page in
    match nth_error pages (page - 1) with
    | Some (inl error) => (Threw error, env')
    | Some (inr data) => (Returned data, env')
    | None => (Returned [], env')
    end.

(** [await octokit.rest.issues.setLabels({...})] *)
Definition setLabels (o : Octokit)
    (owner repo : string) (issue_number : JsNumber.Number)
    (labels : list string)
  : Async unit :=
  fun env =>
    let '(failure, w) :=
      issues_setLabels o (world env) owner repo issue_number labels in
    let env' := sent (SetLabels owner repo issue_number labels) w env in
    match failure with
    | Some error => (Threw error, env')
    | None => (Returned tt, env')
    end.

(** [await octokit.rest.issues.deleteLabel({...})] *)
Definition deleteLabel (o : Octokit) (owner repo name : string)
  : Async unit :=
  fun env =>
    let '(failure, w) :=
      issues_deleteLabel o (world env) owner repo name in
    let env' := sent (DeleteLabel owner repo name) w env in
    match failure with
    | Some error => (Threw error, env')
    | None => (Returned tt, env')
    end.

End Service.

Arguments Octokit W : clear implicits.
Arguments OperationContext W : clear implicits.
Arguments Env W : clear implicits.
Arguments Async W A : clear implicits.
Arguments Returned {A} a.
Arguments Threw {A} e.
Arguments OutOfFuel {A}.

Declare Scope async_scope.
Delimit Scope async_scope with async.
Notation "x <- m ;; k" := (bind m (fun x => k))
  (at level 61, m at next level, right associativity) : async_scope.
Notation "m ;; k" := (bind m (fun _ => k))
  (at level 61, right associativity) : async_scope.
Local Open Scope async_scope.

Section WithService.

Context {W : Type}.

Definition perPage : nat := 100.

(** [issue.number !== context.issueNumber] *)
Definition isOther (context : OperationContext W) (issue : Issue) : bool :=
  negb (JsNumber.strictEquals (JsNumber.Int (number issue))
          (issueNumber context)).

(** The [while (true)] loop of [isLabelUsedByOthers], entered with the
    current value of [page]; [break] leads to the [return false] that
    follows the loop. *)
Fixpoint pagingLoop (fuel : nat) (context : OperationContext W)
    (labelName : string) (page : nat) : Async W bool :=
  match fuel with
  | O => outOfFuel
  | S fuel' =>
      issues <- listForRepo (octokit context) (owner context) (repo context)
                  labelName "all" perPage page ;;
      let otherIssues := filter (isOther context) issues in
      if (0 <? List.length otherIssues)%nat then ret true
      else if (List.length issues <? perPage)%nat then ret false
      else pagingLoop fuel' context labelName (page + 1)
  end.

(** The pages the service holds for a label in a given state of the
    service. *)
Definition pagesOf (context : OperationContext W) (labelName : string)
    (w : W) : list (Thrown + list Issue) :=
  issues_listForRepo (octokit context) w (owner context) (repo context)
    labelName "all" perPage.

(** The loop is run with one more round than the service holds pages
    for the label, which is enough for it to end. *)
Definition isLabelUsedByOthers (context : OperationContext W)
    (labelName : string) : Async W bool :=
  tryCatch
    (fun env =>
       pagingLoop (S (List.length (pagesOf context labelName (world env))))
                  context labelName 1 env)
    (fun error =>
       core_warning
         ("Failed to check if label '" ++ labelName
          ++ "' is used by other issues: "
          ++ match error with
             | ErrorObject message => message
             | OtherValue => "Unknown error"
             end) ;;
       ret true).

(** [parsed && parsed.key === key] *)
Definition decodesTo (context : OperationContext W) (key : string)
    (label : Label) : bool :=
  match parseStateLabel (name label) (prefix context) (separator context) with
  | Some parsed => String.eqb (Labels.key parsed) key
  | None => false
  end.

(** [!parsed || parsed.key !== key] *)
Definition keeps (context : OperationContext W) (key : string)
    (label : Label) : bool :=
  match parseStateLabel (name label) (prefix context) (separator context) with
  | Some parsed => negb (String.eqb (Labels.key parsed) key)
  | None => true
  end.

Definition newLabelNameOf (context : OperationContext W) (key value : string)
  : string :=
  let convertedValue := convertValue value in
  createStateLabelName key convertedValue (prefix context) (separator context).

Definition existingLabelOf (context : OperationContext W) (key : string)
    (currentLabels : list Label) : option Label :=
  find (decodesTo context key) currentLabels.

Definition labelsToKeepOf (context : OperationContext W) (key : string)
    (currentLabels : list Label) : list Label :=
  filter (keeps context key) currentLabels.

(** [[...labelsToKeep.map((l) => l.name), newLabelName]] *)
Definition newLabelsOf (context : OperationContext W) (key value : string)
    (currentLabels : list Label) : list string :=
  (map name (labelsToKeepOf context key currentLabels)
   ++ [newLabelNameOf context key value])%list.

Definition setOperation (context : OperationContext W)
    (key value : string) (currentLabels : list Label)
  : Async W OperationOutput :=
  let newLabelName := newLabelNameOf context key value in
  let existingLabel := existingLabelOf context key currentLabels in
  let labelsToKeep := labelsToKeepOf context key currentLabels in
  let newLabels := (map name labelsToKeep ++ [newLabelName])%list in
  setLabels (octokit context) (owner context) (repo context)
    (issueNumber context) newLabels ;;
  match existingLabel with
  | Some existingLabel =>
      if deleteUnusedLabels context then
        isUsed <- isLabelUsedByOthers context (name existingLabel) ;;
        if negb isUsed then
          tryCatch
            (deleteLabel (octokit context) (owner context) (repo context)
               (name existingLabel) ;;
             core_info ("Deleted old label '" ++ name existingLabel
                        ++ "' from repository"))
            (fun deleteLabelError =>
               match deleteLabelError with
               | ErrorObject message =>
                   core_warning
                     ("Failed to delete old label '" ++ name existingLabel
                      ++ "' from repository: " ++ message)
               | OtherValue =>
                   core_warning
                     ("Failed to delete old label '" ++ name existingLabel
                      ++ "' from repository: Unknown error")
               end)
        else
          core_info ("Skipping deletion of label '" ++ name existingLabel
                     ++ "' as it is used by other issues/PRs")
      else ret tt
  | None => ret tt
  end ;;
  ret {| success := true; value := None; state := None |}.

Definition removeOperation (context : OperationContext W)
    (key : string) (currentLabels : list Label)
  : Async W OperationOutput :=
  let labelToRemove := existingLabelOf context key currentLabels in
  match labelToRemove with
  | None => ret {| success := false; value := None; state := None |}
  | Some labelToRemove =>
      let labelsToKeep := labelsToKeepOf context key currentLabels in
      setLabels (octokit context) (owner context) (repo context)
        (issueNumber context) (map name labelsToKeep) ;;
      (if deleteUnusedLabels context then
         isUsed <- isLabelUsedByOthers context (name labelToRemove) ;;
         if negb isUsed then
           tryCatch
             (deleteLabel (octokit context) (owner context) (repo context)
                (name labelToRemove) ;;
              core_info ("Deleted label '" ++ name labelToRemove
                         ++ "' from repository"))
             (fun deleteLabelError =>
                match deleteLabelError with
                | ErrorObject message =>
                    core_warning
                      ("Failed to delete label '" ++ name labelToRemove
                       ++ "' from repository: " ++ message)
                | OtherValue =>
                    core_warning
                      ("Failed to delete label '" ++ name labelToRemove
                       ++ "' from repository: Unknown error")
                end)
         else
           core_info ("Skipping deletion of label '" ++ name labelToRemove
                      ++ "' as it is used by other issues/PRs")
       else ret tt) ;;
      ret {| success := true; value := None; state := None |}
  end.

End WithService.

End Operations.


(** ** Vocabulary of the statements *)

Module Runs.

Import Operations.

Section WithContext.

Context {W : Type}.

(** The answer of the service to the request for page [page] (counted
    from 1) of a listing that holds [pages]. *)
Definition pageAt (pages : list (Thrown + list Issue)) (page : nat)
  : Thrown + list Issue :=
  match nth_error pages (page - 1) with
  | Some answer => answer
  | None => inr []
  end.

(** A page after which the paging loop asks for the next one: it
    arrived, it is full, and it names no issue but the context's. *)
Definition goesOn (context : OperationContext W)
    (answer : Thrown + list Issue) : Prop :=
  exists issues,
    answer = inr issues /\
    (forall issue, In issue issues -> isOther context issue = false) /\
    100 <= List.length issues.

(** A page on which the paging loop ends, and how: the request failed,
    or the page names another issue, or it names none and is short. *)
Inductive stopsWith (context : OperationContext W)
  : Thrown + list Issue -> Outcome bool -> Prop :=
| stops_failed error :
    stopsWith context (inl error) (Threw error)
| stops_used issues :
    (exists issue, In issue issues /\ isOther context issue = true) ->
    stopsWith context (inr issues) (Returned true)
| stops_unused issues :
    (forall issue, In issue issues -> isOther context issue = false) ->
    List.length issues < 100 ->
    stopsWith context (inr issues) (Returned false).

(** The requests for pages [from .. from + n - 1] of the issues
    carrying a label, 100 to the page. *)
Definition listCallsFrom (context : OperationContext W)
    (labelName : string) (from n : nat) : list Call :=
  map (ListForRepo (owner context) (repo context) labelName "all" 100)
      (seq from n).

(** The requests for pages [1 .. n]. *)
Definition listCalls (context : OperationContext W) (labelName : string)
    (n : nat) : list Call :=
  listCallsFrom context labelName 1 n.

(** [env] after more calls were sent and more lines logged, the state
    of the service being the same. *)
Definition extend (env : Env W) (sentCalls : list Call)
    (lines : list LogLine) : Env W :=
  {| world := world env;
     calls := calls env ++ sentCalls;
     log := log env ++ lines |}.

(** The warning of a failed usage check. *)
Definition checkFailedWarning (labelName : string) (error : Thrown)
  : LogLine :=
  Warning ("Failed to check if label '" ++ labelName
           ++ "' is used by other issues: "
           ++ match error with
              | ErrorObject message => message
              | OtherValue => "Unknown error"
              end).

Definition isSetLabels (c : Call) : bool :=
  match c with SetLabels _ _ _ _ => true | _ => false end.

(** The number of labels that decode to [key]. *)
Definition countKey (context : OperationContext W) (key : string)
    (labels : list Label) : nat :=
  List.length (filter (decodesTo context key) labels).

(** [setSequence context key labels values labels']: a [set] call for
    [key] is made for each of [values] in turn (at least one), each on
    the labels the entity carries after the previous call, that is
    labels whose names are the replacement list that call built;
    [labels'] are the labels after the last call. *)
Inductive setSequence (context : OperationContext W) (key : string)
  : list Label -> list string -> list Label -> Prop :=
| setSequence_last labels value labels' :
    map name labels' = newLabelsOf context key value labels ->
    setSequence context key labels [value] labels'
| setSequence_next labels value labels1 values labels' :
    map name labels1 = newLabelsOf context key value labels ->
    setSequence context key labels1 values labels' ->
    setSequence context key labels (value :: values) labels'.

End WithContext.

End Runs.

(** ** Fixtures, after [__fixtures__/github.ts] and the tests *)

Module Fixtures.

Import Operations.

Definition mockLabels : list Label :=
  [ {| name := "bug"; color := Some "f29513";
       description := Some (Some "Something isn't working") |};
    {| name := "state::step::1"; color := Some "a2eeef";
       description := Some (Some "State label") |};
    {| name := "state::status::pending"; color := Some "fbca04";
       description := Some (Some "State label") |};
    {| name := "enhancement"; color := Some "0e8a16";
       description := Some (Some "New feature or request") |} ].

(** A small service: the labels of the issue at hand and the names in
    the repository's catalog. *)
Record MockWorld := {
  issueLabels : list string;
  catalog : list string
}.

(** A client whose listing answers with [pages] whatever the label, and
    whose writing calls fail as told (a failed call changes nothing). *)
Definition mockOctokit (pages : list (Thrown + list Issue))
    (setLabelsFailure deleteLabelFailure : option Thrown)
  : Octokit MockWorld :=
  {| issues_listForRepo := fun _ _ _ _ _ _ => pages;
     issues_setLabels := fun w _ _ _ labels =>
       match setLabelsFailure with
       | Some error => (Some error, w)
       | None =>
           (None, {| issueLabels := labels;
                     catalog := (catalog w ++ labels)%list |})
       end;
     issues_deleteLabel := fun w _ _ name =>
       match deleteLabelFailure with
       | Some error => (Some error, w)
       | None =>
           (None,
            {| issueLabels :=
                 filter (fun l => negb (String.eqb l name)) (issueLabels w);
               catalog :=
                 filter (fun l => negb (String.eqb l name)) (catalog w) |})
       end |}.

Definition mockContext (o : Octokit MockWorld) (deleteUnused : bool)
  : OperationContext MockWorld :=
  {| octokit := o;
     owner := "test-owner";
     repo := "test-repo";
     issueNumber := JsNumber.Int 123;
     prefix := "state";
     separator := "::";
     deleteUnusedLabels := deleteUnused |}.

(** A client with a given listing, for the usage check. *)
Definition contextWith (pages : list (Thrown + list Issue))
  : OperationContext MockWorld :=
  mockContext (mockOctokit pages None None) true.

Definition own : Issue := {| number := 123 |}.
Definition other : Issue := {| number := 456 |}.

(** A full page that names the issue at hand only. *)
Definition fullPage : Thrown + list Issue := inr (repeat own 100).

Definition mockWorld : MockWorld :=
  {| issueLabels := map name mockLabels; catalog := map name mockLabels |}.

Definition mockEnv : Env MockWorld :=
  {| world := mockWorld; calls := []; log := [] |}.

End Fixtures.

(** ** JavaScript objects used as string maps *)

Module JsObject.

(** An object created by [{}] whose properties hold strings: its own
    properties in creation order.  Its prototype is [Object.prototype]. *)
Definition Obj : Type := list (string * string).

Definition empty : Obj := [].

(** The names of the properties of [Object.prototype]. *)
Definition prototypeKeys : list string :=
  ["constructor"; "__defineGetter__"; "__defineSetter__"; "hasOwnProperty";
   "__lookupGetter__"; "__lookupSetter__"; "isPrototypeOf";
   "propertyIsEnumerable"; "toString"; "valueOf"; "__proto__";
   "toLocaleString"].

Definition inPrototype (k : string) : bool :=
  existsb (String.eqb k) prototypeKeys.

(** The value of the own property [k], if there is one. *)
Fixpoint own (o : Obj) (k : string) : option string :=
  match o with
  | [] => None
  | (k', v) :: o' => if String.eqb k' k then Some v else own o' k
  end.

(** Writing an own property: an existing one keeps its place. *)
Fixpoint update (o : Obj) (k v : string) : Obj :=
  match o with
  | [] => [(k, v)]
  | (k', v') :: o' =>
      if String.eqb k' k then (k, v) :: o' else (k', v') :: update o' k v
  end.

(** [o[k] = v] for a string [v].  Every property of [Object.prototype]
    is a writable data property, which the assignment shadows by an own
    property, except [__proto__]: that one is an accessor whose setter
    ignores a value that is not an object, so nothing is stored. *)
Definition set (o : Obj) (k v : string) : Obj :=
  if String.eqb k "__proto__" then o else update o k v.

(** What [o[k]] evaluates to: the own property, or else the property
    inherited from [Object.prototype] (a function, or the prototype itself
    for [__proto__]), or else [undefined]. *)
Inductive Property :=
| Undefined
| Own (v : string)
| Inherited.

Definition get (o : Obj) (k : string) : Property :=
  match own o k with
  | Some v => Own v
  | None => if inPrototype k then Inherited else Undefined
  end.

(** An array index: the canonical decimal numeral of an integer from 0 to
    2^32 - 2. *)
Definition arrayIndex (k : string) : option Z :=
  match k with
  | EmptyString => None
  | String c rest =>
      let digits := JsNumber.digitsPrefix k in
      if negb (Nat.eqb (List.length digits) (String.length k)) then None
      else if Ascii.eqb c "0" && negb (String.eqb rest "") then None
      else
        let n := JsNumber.mathIntOf digits in
        if (n <=? 4294967294)%Z then Some n else None
  end.

Fixpoint insertIndexed (e : Z * (string * string))
    (l : list (Z * (string * string))) : list (Z * (string * string)) :=
  match l with
  | [] => [e]
  | e' :: l' =>
      if (fst e <=? fst e')%Z then e :: l else e' :: insertIndexed e l'
  end.

Definition indexedEntries (o : Obj) : list (Z * (string * string)) :=
  fold_right
    (fun kv acc =>
       match arrayIndex (fst kv) with
       | Some n => insertIndexed (n, kv) acc
       | None => acc
       end)
    [] o.

(** The own properties in the order of enumeration: the array indices in
    ascending order, then the other keys in creation order. *)
Definition entries (o : Obj) : list (string * string) :=
  (map snd (indexedEntries o)
   ++ filter (fun kv => match arrayIndex (fst kv) with
                        | Some _ => false
                        | None => true
                        end) o)%list.

End JsObject.

(** ** [JSON.stringify] of such an object *)

Module Json.

Definition quote : string := String "034" EmptyString.

Definition hexDigit (n : nat) : ascii :=
  match String.get n "0123456789abcdef" with
  | Some c => c
  | None => "0"%char
  end.

(** The escape of one code unit inside a JSON string. *)
Definition escape (c : ascii) : string :=
  let n := nat_of_ascii c in
  if Nat.eqb n 8 then "\b"
  else if Nat.eqb n 9 then "\t"
  else if Nat.eqb n 10 then "\n"
  else if Nat.eqb n 12 then "\f"
  else if Nat.eqb n 13 then "\r"
  else if Nat.eqb n 34 then "\" ++ quote
  else if Nat.eqb n 92 then "\\"
  else if Nat.ltb n 32 then
    "\u00" ++ String (hexDigit (n / 16)) (String (hexDigit (n mod 16)) "")
  else String c "".

Fixpoint escapeAll (s : string) : string :=
  match s with
  | EmptyString => EmptyString
  | String c s' => escape c ++ escapeAll s'
  end.

(** [QuoteJSONString] *)
Definition quoteJSONString (s : string) : string :=
  quote ++ escapeAll s ++ quote.

Fixpoint join (sep : string) (parts : list string) : string :=
  match parts with
  | [] => ""
  | [p] => p
  | p :: rest => p ++ sep ++ join sep rest
  end.

(** [JSON.stringify(o)], without indentation. *)
Definition stringify (o : JsObject.Obj) : string :=
  "{"
  ++ join ","
       (map (fun kv => quoteJSONString (fst kv) ++ ":" ++ quoteJSONString (snd kv))
            (JsObject.entries o))
  ++ "}".

End Json.

(** ** src/labels.ts: the state of a label list *)

Module StateLabels.

(** [interface StateLabels] *)
Definition StateLabels : Type := JsObject.Obj.

Definition extractStateLabels (labels : list Label) (prefix separator : string)
  : StateLabels :=
  fold_left
    (fun state label =>
       match parseStateLabel (name label) prefix separator with
       | Some parsed =>
           JsObject.set state (Labels.key parsed) (Labels.value parsed)
       | None => state
       end)
    labels JsObject.empty.

End StateLabels.

(** ** src/operations.ts: the reading operations *)

Module ReadOperations.

Import Operations.
Import StateLabels.
Local Open Scope async_scope.

(** What [getOperation] resolves to.  [currentState[key]] is not always a
    string or [undefined]: for a key that names a property of
    [Object.prototype] and is not a key of the state, it is that inherited
    property, and the source returns it as the value with success true;
    [InheritedOutput] stands for that output, which [OperationOutput]
    cannot hold. *)
Inductive GetOutput :=
| Output (output : OperationOutput)
| InheritedOutput (key : string).

Section WithService.

Context {W : Type}.

Definition getOperation (context : OperationContext W) (key : string)
    (currentLabels : list Label) : Async W GetOutput :=
  let currentState :=
    extractStateLabels currentLabels (prefix context) (separator context) in
  let currentValue := JsObject.get currentState key in
  match currentValue with
  | JsObject.Undefined =>
      ret (Output {| success := false; value := Some None; state := None |})
  | JsObject.Own currentValue =>
      ret (Output {| success := true; value := Some (Some currentValue);
                     state := None |})
  | JsObject.Inherited => ret (InheritedOutput key)
  end.

Definition getAllOperation (context : OperationContext W)
    (currentLabels : list Label) : Async W OperationOutput :=
  let currentState :=
    extractStateLabels currentLabels (prefix context) (separator context) in
  ret {| success := true; value := None;
         state := Some (Json.stringify currentState) |}.

End WithService.

End ReadOperations.

(** ** Vocabulary of the statements on the state *)

Module States.

Import Operations.

(** The value a label holds for [k], when it decodes to [k]. *)
Definition valueFor (prefix separator k : string) (label : Label)
  : option string :=
  match parseStateLabel (name label) prefix separator with
  | Some parsed =>
      if String.eqb (Labels.key parsed) k then Some (Labels.value parsed)
      else None
  | None => None
  end.

(** The value of the last label of the list that decodes to [k]. *)
Fixpoint lastValue (prefix separator k : string) (labels : list Label)
  : option string :=
  match labels with
  | [] => None
  | label :: rest =>
      match lastValue prefix separator k rest with
      | Some v => Some v
      | None => valueFor prefix separator k label
      end
  end.

(** The output of a [get] that finds nothing: a failure, unless the key
    names a property of [Object.prototype]. *)
Definition nothingFound (k : string) : ReadOperations.GetOutput :=
  if JsObject.inPrototype k then ReadOperations.InheritedOutput k
  else ReadOperations.Output
         {| success := false; value := Some None; state := None |}.

Definition found (v : string) : ReadOperations.GetOutput :=
  ReadOperations.Output
    {| success := true; value := Some (Some v); state := None |}.

End States.

(** ** src/main.ts *)

Module Main.

Import Operations.
Import StateLabels.
Import ReadOperations.

(** The inputs of the action, as [@actions/core] hands them over:
    [core.getInput] returns a string (empty when the input is not given);
    with [required: true] it throws when the input is empty; and
    [core.getBooleanInput] returns a boolean or throws. *)
Record Inputs := {
  operation_input : Thrown + string;
  issue_number_input : string;
  github_token_input : string;
  separator_input : string;
  repository_input : string;
  prefix_input : string;
  key_input : string;
  value_input : string;
  delete_unused_labels_input : Thrown + bool
}.

(** [github.context.payload], as far as the source reads it:
    [payload.issue?.number] and [payload.pull_request?.number], each an
    integer or undefined. *)
Record Payload := {
  issue_number : option Z;
  pull_request_number : option Z
}.

(** [x?.number] when it is truthy: a number is falsy when it is zero. *)
Definition truthyNumber (x : option Z) : option Z :=
  match x with
  | Some n => if (n =? 0)%Z then None else Some n
  | None => None
  end.

Definition resolveIssueNumber (inputs : Inputs) (payload : Payload)
  : Thrown + JsNumber.Number :=
  let issueNumberInput := issue_number_input inputs in
  if truthy issueNumberInput then
    let issueNumber := JsNumber.parseInt10 issueNumberInput in
    if JsNumber.isNaN issueNumber then
      inl (ErrorObject "Invalid issue number provided in input")
    else inr issueNumber
  else
    match truthyNumber (issue_number payload) with
    | Some number => inr (JsNumber.Int number)
    | None =>
        match truthyNumber (pull_request_number payload) with
        | Some number => inr (JsNumber.Int number)
        | None =>
            inl (ErrorObject
                   ("No issue or PR number provided as input and none available from GitHub context. "
                    ++ "Either provide issue-number as input or run on issue/pull_request events."))
        end
    end.

(** [s.split(c)] for a separator of one code unit. *)
Fixpoint split (c : ascii) (s : string) : list string :=
  match s with
  | EmptyString => [""]
  | String d s' =>
      if Ascii.eqb d c then "" :: split c s'
      else
        match split c s' with
        | part :: parts => String d part :: parts
        | [] => [String d ""]
        end
  end.

(** What [core.setOutput] is given as a value. *)
Inductive OutputValue :=
| OutString (s : string)
| OutNull
| OutBoolean (b : bool)
| OutInherited (key : string).

Section WithService.

Context {W : Type}.

(** The client [github.getOctokit] returns: the calls of the operations
    and [issues.listLabelsOnIssue], which reads the labels of an issue and
    may fail. *)
Record Client := {
  rest : Octokit W;
  issues_listLabelsOnIssue :
    W -> string -> string -> JsNumber.Number -> Thrown + list Label
}.

(** The state a run goes through: that of the operations, the
    [listLabelsOnIssue] requests sent, and the calls made of
    [core.setOutput] and [core.setFailed]. *)
Record RunState := {
  env : Env W;
  labelReads : list (string * string * JsNumber.Number);
  outputs : list (string * OutputValue);
  failures : list string
}.

(** A step of [run] returns or throws; [Beyond] is what awaiting a
    computation that ran out of fuel gives. *)
Inductive Step (A : Type) :=
| Done (a : A)
| Failed (error : Thrown)
| Beyond.
Arguments Done {A} a.
Arguments Failed {A} error.
Arguments Beyond {A}.

Definition Action (A : Type) : Type := RunState -> Step A * RunState.

Definition done {A} (a : A) : Action A := fun s => (Done a, s).

Definition throw {A} (error : Thrown) : Action A := fun s => (Failed error, s).

Definition andThen {A B} (m : Action A) (k : A -> Action B) : Action B :=
  fun s =>
    match m s with
    | (Done a, s') => k a s'
    | (Failed error, s') => (Failed error, s')
    | (Beyond, s') => (Beyond, s')
    end.

(** A value that was returned or thrown. *)
Definition result {A} (r : Thrown + A) : Action A :=
  match r with
  | inl error => throw error
  | inr a => done a
  end.

(** An asynchronous computation of the operations, awaited. *)
Definition await {A} (m : Async W A) : Action A :=
  fun s =>
    let '(outcome, env') := m (env s) in
    let s' := {| env := env'; labelReads := labelReads s;
                 outputs := outputs s; failures := failures s |} in
    match outcome with
    | Returned a => (Done a, s')
    | Threw error => (Failed error, s')
    | OutOfFuel => (Beyond, s')
    end.

Definition core_setOutput (name : string) (v : OutputValue) : Action unit :=
  fun s =>
    (Done tt,
     {| env := env s; labelReads := labelReads s;
        outputs := outputs s ++ [(name, v)]; failures := failures s |}).

Definition core_setFailed (message : string) : Action unit :=
  fun s =>
    (Done tt,
     {| env := env s; labelReads := labelReads s;
        outputs := outputs s; failures := failures s ++ [message] |}).

(** [await octokit.rest.issues.listLabelsOnIssue({...})], giving [data] *)
Definition listLabelsOnIssue (client : Client) (owner repo : string)
    (issue_number : JsNumber.Number) : Action (list Label) :=
  fun s =>
    let s' := {| env := env s;
                 labelReads := labelReads s ++ [(owner, repo, issue_number)];
                 outputs := outputs s; failures := failures s |} in
    match issues_listLabelsOnIssue client (world (env s)) owner repo
            issue_number with
    | inl error => (Failed error, s')
    | inr data => (Done data, s')
    end.

End WithService.

Arguments Client W : clear implicits.
Arguments RunState W : clear implicits.
Arguments Action W A : clear implicits.
Arguments Done {A} a.
Arguments Failed {A} error.
Arguments Beyond {A}.

Declare Scope action_scope.
Delimit Scope action_scope with action.
Notation "x <-- m ;; k" := (andThen m (fun x => k))
  (at level 61, m at next level, right associativity) : action_scope.
Notation "m ;;; k" := (andThen m (fun _ => k))
  (at level 61, right associativity) : action_scope.
Local Open Scope action_scope.

Section Run.

Context {W : Type}.

Definition operations : list string := ["set"; "remove"; "get"; "get-all"].

Definition includes (l : list string) (s : string) : bool :=
  existsb (String.eqb s) l.

(** The body of the [try] block of [run]. *)
Definition runBody (inputs : Inputs) (payload : Payload)
    (getOctokit : string -> Client W) : Action W unit :=
  operation <-- result (operation_input inputs) ;;
  issueNumber <-- result (resolveIssueNumber inputs payload) ;;
  let githubToken := github_token_input inputs in
  let separator := separator_input inputs in
  let repository := repository_input inputs in
  let prefix := prefix_input inputs in
  let key := key_input inputs in
  let value := value_input inputs in
  deleteUnusedLabels <-- result (delete_unused_labels_input inputs) ;;
  let parts := split "/" repository in
  let owner := nth 0 parts "" in
  let repo := nth 1 parts "" in
  if negb (truthy owner) || negb (truthy repo) then
    throw (ErrorObject "Invalid repository format. Expected: owner/repo")
  else if negb (includes operations operation) then
    throw (ErrorObject ("Invalid operation: " ++ operation
                        ++ ". Must be: set, remove, get, get-all"))
  else if includes ["set"; "remove"; "get"] operation && negb (truthy key) then
    throw (ErrorObject ("Key is required for operation: " ++ operation))
  else if String.eqb operation "set" && negb (truthy value) then
    throw (ErrorObject ("Value is required for operation: " ++ operation))
  else if negb (truthy githubToken) then
    throw (ErrorObject "GitHub token is required")
  else
    let octokit := getOctokit githubToken in
    await (core_info ("Performing operation: " ++ operation)) ;;;
    await (core_info ("Issue number: " ++ JsNumber.toString issueNumber)) ;;;
    await (core_info ("Repository: " ++ owner ++ "/" ++ repo)) ;;;
    await (core_info ("Prefix: " ++ prefix ++ ", Separator: " ++ separator)) ;;;
    currentLabels <-- listLabelsOnIssue octokit owner repo issueNumber ;;
    let currentState := extractStateLabels currentLabels prefix separator in
    await (core_info ("Current state: " ++ Json.stringify currentState)) ;;;
    let operationContext :=
      {| Operations.octokit := rest octokit;
         Operations.owner := owner;
         Operations.repo := repo;
         Operations.issueNumber := issueNumber;
         Operations.prefix := prefix;
         Operations.separator := separator;
         Operations.deleteUnusedLabels := deleteUnusedLabels |} in
    if String.eqb operation "get" then
      output <-- await (getOperation operationContext key currentLabels) ;;
      match output with
      | Output output =>
          match Operations.value output with
          | Some (Some v) => core_setOutput "value" (OutString v)
          | Some None => core_setOutput "value" OutNull
          | None => done tt
          end ;;;
          core_setOutput "success" (OutBoolean (success output))
      | InheritedOutput inherited =>
          core_setOutput "value" (OutInherited inherited) ;;;
          core_setOutput "success" (OutBoolean true)
      end
    else if String.eqb operation "get-all" then
      output <-- await (getAllOperation operationContext currentLabels) ;;
      match Operations.state output with
      | Some text => core_setOutput "state" (OutString text)
      | None => done tt
      end ;;;
      core_setOutput "success" (OutBoolean (success output))
    else if String.eqb operation "set" then
      output <-- await (setOperation operationContext key value
                          currentLabels) ;;
      core_setOutput "success" (OutBoolean (success output))
    else if String.eqb operation "remove" then
      output <-- await (removeOperation operationContext key
                          currentLabels) ;;
      core_setOutput "success" (OutBoolean (success output))
    else done tt.

(** [run]: the body, and the [catch] block that reports the failure. *)
Definition run (inputs : Inputs) (payload : Payload)
    (getOctokit : string -> Client W) : Action W unit :=
  fun s =>
    match runBody inputs payload getOctokit s with
    | (Failed error, s') =>
        match error with
        | ErrorObject message =>
            (core_setFailed message ;;;
             core_setOutput "success" (OutBoolean false)) s'
        | OtherValue =>
            (core_setFailed "An unknown error occurred" ;;;
             core_setOutput "success" (OutBoolean false)) s'
        end
    | r => r
    end.

End Run.

End Main.

(** ** Vocabulary of the statements on [run] *)

Module Runners.

Import Operations.
Import Main.

(** A decimal digit. *)
Definition isDigit (c : ascii) : bool :=
  match JsNumber.digitValue c with
  | Some _ => true
  | None => false
  end.

Fixpoint allDigits (s : string) : bool :=
  match s with
  | EmptyString => true
  | String c s' => isDigit c && allDigits s'
  end.

(** The number a string of decimal digits denotes. *)
Definition digitsValue (ds : string) : Z :=
  fold_left (fun acc c => (10 * acc + (Z.of_N (N_of_ascii c) - 48))%Z)
    (list_ascii_of_string ds) 0%Z.

(** [s] does not begin with a digit. *)
Definition noLeadingDigit (s : string) : bool :=
  match s with
  | EmptyString => true
  | String c _ => negb (isDigit c)
  end.

(** The inputs pass every check of [run]: they give the operation, the
    issue number, the flag and the two parts of the repository named
    here. *)
Definition accepted (inputs : Inputs) (payload : Payload)
    (operation : string) (issueNumber : JsNumber.Number)
    (deleteUnused : bool) (owner repo : string) : Prop :=
  operation_input inputs = inr operation /\
  resolveIssueNumber inputs payload = inr issueNumber /\
  delete_unused_labels_input inputs = inr deleteUnused /\
  (exists more, split "/" (repository_input inputs) = owner :: repo :: more) /\
  owner <> "" /\ repo <> "" /\
  In operation ["set"; "remove"; "get"; "get-all"] /\
  (operation <> "get-all" -> key_input inputs <> "") /\
  (operation = "set" -> value_input inputs <> "") /\
  github_token_input inputs <> "".

(** The lines [run] logs before it reads the labels. *)
Definition preamble (inputs : Inputs) (operation : string)
    (issueNumber : JsNumber.Number) (owner repo : string) : list LogLine :=
  [Info ("Performing operation: " ++ operation);
   Info ("Issue number: " ++ JsNumber.toString issueNumber);
   Info ("Repository: " ++ owner ++ "/" ++ repo);
   Info ("Prefix: " ++ prefix_input inputs ++ ", Separator: "
         ++ separator_input inputs)].

(** The context [run] builds for the operations. *)
Definition contextOf {W : Type} (inputs : Inputs)
    (getOctokit : string -> Client W) (number : JsNumber.Number)
    (deleteUnused : bool) (owner repo : string) : OperationContext W :=
  {| octokit := rest (getOctokit (github_token_input inputs));
     Operations.owner := owner;
     Operations.repo := repo;
     issueNumber := number;
     prefix := prefix_input inputs;
     separator := separator_input inputs;
     deleteUnusedLabels := deleteUnused |}.

(** The state of a run once the labels were read: the request is
    recorded and the five lines are logged. *)
Definition afterRead {W : Type} (inputs : Inputs) (s : RunState W)
    (operation : string) (issueNumber : JsNumber.Number)
    (owner repo : string) (currentLabels : list Label) : RunState W :=
  {| env :=
       {| world := world (env s);
          calls := calls (env s);
          log := (log (env s)
                  ++ preamble inputs operation issueNumber owner repo
                  ++ [Info ("Current state: "
                            ++ Json.stringify
                                 (StateLabels.extractStateLabels currentLabels
                                    (prefix_input inputs)
                                    (separator_input inputs)))])%list |};
     labelReads := (labelReads s ++ [(owner, repo, issueNumber)])%list;
     outputs := outputs s;
     failures := failures s |}.

(** The message [run] hands to [core.setFailed]. *)
Definition failureMessage (error : Thrown) : string :=
  match error with
  | ErrorObject message => message
  | OtherValue => "An unknown error occurred"
  end.

(** A state with more outputs and failures recorded. *)
Definition reported {W : Type} (s : RunState W) (e : Env W)
    (outs : list (string * OutputValue)) (fails : list string) : RunState W :=
  {| env := e;
     labelReads := labelReads s;
     outputs := (outputs s ++ outs)%list;
     failures := (failures s ++ fails)%list |}.

End Runners.

(** ** Fixtures for [run], after the tests of [main.ts] *)

Module MainFixtures.

Import Operations.
Import Main.

Definition mockInputs (operation key value : string) : Inputs :=
  {| operation_input := inr operation;
     issue_number_input := "123";
     github_token_input := "fake-token";
     separator_input := "::";
     repository_input := "test-owner/test-repo";
     prefix_input := "state";
     key_input := key;
     value_input := value;
     delete_unused_labels_input := inr false |}.

(** An issue number of 309 digits. *)
Definition longIssueNumber : string :=
  string_of_list_ascii (repeat "9"%char 309).

Definition mockPayload : Payload :=
  {| issue_number := None; pull_request_number := None |}.

(** A client that answers the reading of the labels with [labels] and
    whose list-replace call fails as told. *)
Definition mockClient (labels : Thrown + list Label)
    (setLabelsFailure : option Thrown) (token : string)
  : Client Fixtures.MockWorld :=
  {| rest := Fixtures.mockOctokit [] setLabelsFailure None;
     issues_listLabelsOnIssue := fun _ _ _ _ => labels |}.

Definition mockState : RunState Fixtures.MockWorld :=
  {| env := Fixtures.mockEnv; labelReads := []; outputs := [];
     failures := [] |}.

End MainFixtures.
(** ** Facts about the string methods *)

Section StringFacts.

Lemma append_assoc (a b c : string) : (a ++ b) ++ c = a ++ (b ++ c).
Proof. induction a as [|x a IH]; simpl; [reflexivity | now rewrite IH]. Qed.

Lemma append_nil_r (a : string) : a ++ "" = a.
Proof. induction a as [|x a IH]; simpl; [reflexivity | now rewrite IH]. Qed.

Lemma length_append (a b : string) :
  String.length (a ++ b) = String.length a + String.length b.
Proof. induction a as [|x a IH]; simpl; [reflexivity | now rewrite IH]. Qed.

Lemma take_append (a b : string) : take (String.length a) (a ++ b) = a.
Proof. induction a as [|x a IH]; simpl; [now destruct b | now rewrite IH]. Qed.

Lemma drop_append (a b : string) : drop (String.length a) (a ++ b) = b.
Proof. induction a as [|x a IH]; simpl; [now destruct b | exact IH]. Qed.

Lemma take_all (n : nat) (s : string) :
  String.length s <= n -> take n s = s.
Proof.
  revert n; induction s as [|x s IH]; intros [|n] H; simpl in *;
    try reflexivity; try lia.
  rewrite IH by lia; reflexivity.
Qed.

Lemma length_drop (n : nat) (s : string) :
  String.length (drop n s) = String.length s - n.
Proof.
  revert n; induction s as [|x s IH]; intros [|n]; simpl; auto.
Qed.

Lemma take_drop (n : nat) (s : string) : take n s ++ drop n s = s.
Proof.
  revert n; induction s as [|x s IH]; intros [|n]; simpl; auto.
  now rewrite IH.
Qed.

Lemma length_take (n : nat) (s : string) :
  String.length (take n s) = Nat.min n (String.length s).
Proof.
  revert n; induction s as [|x s IH]; intros [|n]; simpl; auto.
Qed.

Lemma substring_0 (s : string) (n : nat) : substring s 0 n = take n s.
Proof.
  unfold substring. rewrite Nat.max_0_l, Nat.min_0_l, Nat.sub_0_r.
  reflexivity.
Qed.

Lemma substringFrom_drop (s : string) (n : nat) : substringFrom s n = drop n s.
Proof.
  unfold substringFrom, substring.
  destruct (Nat.le_ge_cases n (String.length s)) as [H|H].
  - rewrite Nat.max_r, Nat.min_l by exact H.
    apply take_all. rewrite length_drop. lia.
  - rewrite Nat.max_l, Nat.min_r by exact H.
    assert (L : String.length (drop n s) = 0) by (rewrite length_drop; lia).
    assert (L' : String.length (drop (String.length s) s) = 0)
      by (rewrite length_drop; lia).
    destruct (drop n s); [|discriminate].
    destruct (drop (String.length s) s); [|discriminate].
    now destruct (n - String.length s).
Qed.

Lemma startsWith_iff (s p : string) :
  startsWith s p = true <-> exists r, s = p ++ r.
Proof.
  revert s; induction p as [|c p IH]; intros s; simpl.
  - split; [exists s; reflexivity | reflexivity].
  - destruct s as [|d s].
    + split; [discriminate | intros [r H]; discriminate].
    + rewrite andb_true_iff, Ascii.eqb_eq, IH. split.
      * intros [-> [r ->]]. now exists r.
      * intros [r H]. injection H as -> ->. split; [reflexivity | now exists r].
Qed.

Lemma startsWith_append (p r : string) : startsWith (p ++ r) p = true.
Proof. apply startsWith_iff. now exists r. Qed.

Lemma occursAt_0 (sep s : string) :
  occursAt sep s 0 <-> startsWith s sep = true.
Proof.
  rewrite startsWith_iff. split.
  - intros ([|x a] & b & -> & L); [now exists b | discriminate].
  - intros [r ->]. now exists "", r.
Qed.

Lemma occursAt_S (sep : string) (c : ascii) (s : string) (n : nat) :
  occursAt sep (String c s) (S n) <-> occursAt sep s n.
Proof.
  split.
  - intros ([|x a] & b & E & L); [discriminate|].
    simpl in E, L. injection E as _ ->. injection L as L.
    now exists a, b.
  - intros (a & b & -> & L). exists (String c a), b. simpl. now rewrite L.
Qed.

Lemma occursAt_nil (sep : string) (n : nat) :
  occursAt sep "" n -> n = 0.
Proof.
  intros ([|x a] & b & E & L); [now symmetry | discriminate].
Qed.

(** [indexOf] finds the first occurrence, and fails only when there is
    none. *)
Lemma indexOf_first (s sep : string) :
  match indexOf s sep with
  | Some n => occursAt sep s n /\ forall m, occursAt sep s m -> n <= m
  | None => forall m, ~ occursAt sep s m
  end.
Proof.
  induction s as [|c s IH]; simpl indexOf.
  - destruct (startsWith "" sep) eqn:E.
    + split; [now apply occursAt_0 | lia].
    + intros m H. pose proof (occursAt_nil _ _ H); subst.
      apply occursAt_0 in H. congruence.
  - destruct (startsWith (String c s) sep) eqn:E.
    + split; [now apply occursAt_0 | lia].
    + destruct (indexOf s sep) as [k|]; simpl.
      * destruct IH as [Hk Hmin]. split; [now apply occursAt_S|].
        intros [|m] Hm; [apply occursAt_0 in Hm; congruence|].
        apply occursAt_S in Hm. apply Hmin in Hm. lia.
      * intros [|m] Hm; [apply occursAt_0 in Hm; congruence|].
        apply occursAt_S in Hm. now apply IH in Hm.
Qed.

Lemma indexOf_Some (s sep : string) (n : nat) :
  indexOf s sep = Some n <->
  occursAt sep s n /\ forall m, occursAt sep s m -> n <= m.
Proof.
  pose proof (indexOf_first s sep) as F.
  destruct (indexOf s sep) as [k|].
  - destruct F as [Hk Hmin]. split.
    + now intros [= <-].
    + intros [Hn Hmin']. f_equal.
      apply Hmin in Hn. apply Hmin' in Hk. lia.
  - split; [discriminate|]. intros [Hn _]. now apply F in Hn.
Qed.

Lemma indexOf_None (s sep : string) :
  indexOf s sep = None <-> ~ occurs sep s.
Proof.
  pose proof (indexOf_first s sep) as F.
  destruct (indexOf s sep) as [k|].
  - split; [discriminate|]. intros H. exfalso. apply H. exists k. apply F.
  - split; [|reflexivity]. intros _ [m Hm]. now apply F in Hm.
Qed.

End StringFacts.

(** ** The codec: decoding and the round trip *)

Section Codec.

Lemma take_append_le (n : nat) (a b : string) :
  String.length a <= n -> take n (a ++ b) = a ++ take (n - String.length a) b.
Proof.
  revert n; induction a as [|x a IH]; intros n H; simpl in *.
  - now rewrite Nat.sub_0_r.
  - destruct n as [|n]; [lia|]. simpl. rewrite IH by lia. reflexivity.
Qed.

Lemma occursAt_le (sep s : string) (n : nat) :
  occursAt sep s n -> n + String.length sep <= String.length s.
Proof.
  intros (a & b & -> & <-). rewrite !length_append. lia.
Qed.

(** An occurrence that starts inside [x] followed by a separator lies
    inside [x ++ sep], whatever comes after. *)
Lemma occursAt_before (sep x v : string) (m : nat) :
  m < String.length x ->
  occursAt sep (x ++ sep ++ v) m <-> occursAt sep (x ++ sep) m.
Proof.
  intros Hm. split.
  - intros (a & b & E & L). subst m.
    exists a, (take (String.length x - String.length a) b). split; [|reflexivity].
    assert (T : take (String.length x + String.length sep) (x ++ sep ++ v)
                = x ++ sep).
    { rewrite <- append_assoc, <- length_append. apply take_append. }
    rewrite E in T. rewrite <- append_assoc in T.
    rewrite take_append_le in T by (rewrite length_append; lia).
    rewrite length_append in T. rewrite append_assoc in T.
    rewrite <- T. do 3 f_equal. lia.
  - intros (a & b & E & L). exists a, (b ++ v). split; [|exact L].
    rewrite <- append_assoc, E, !append_assoc. reflexivity.
Qed.

Lemma occursAt_here (sep x v : string) :
  occursAt sep (x ++ sep ++ v) (String.length x).
Proof. now exists x, v. Qed.

Lemma indexOf_key (sep k v : string) :
  indexOf (k ++ sep ++ v) sep = Some (String.length k) <->
  indexOf (k ++ sep) sep = Some (String.length k).
Proof.
  rewrite !indexOf_Some. split; intros [_ Hmin]; split.
  - rewrite <- (append_nil_r sep) at 2. apply occursAt_here.
  - intros m Hm. destruct (Nat.lt_ge_cases m (String.length k)) as [Hlt|]; [|easy].
    apply Hmin. now apply occursAt_before.
  - apply occursAt_here.
  - intros m Hm. destruct (Nat.lt_ge_cases m (String.length k)) as [Hlt|]; [|easy].
    apply Hmin. now apply occursAt_before in Hm.
Qed.

Lemma parseStateLabel_eq (labelName prefix separator : string) :
  parseStateLabel labelName prefix separator =
  let expectedPrefix := expectedPrefixOf prefix separator in
  if startsWith labelName expectedPrefix then
    let remainder := drop (String.length expectedPrefix) labelName in
    match indexOf remainder separator with
    | None => None
    | Some i =>
        Some {| key := take i remainder;
                value := drop (i + String.length separator) remainder |}
    end
  else None.
Proof.
  unfold parseStateLabel. cbv zeta.
  destruct (startsWith labelName (expectedPrefixOf prefix separator)); simpl;
    [|reflexivity].
  rewrite substringFrom_drop.
  destruct (indexOf _ separator); [|reflexivity].
  now rewrite substring_0, substringFrom_drop.
Qed.

Lemma createStateLabelName_eq (k v prefix separator : string) :
  createStateLabelName k v prefix separator =
  expectedPrefixOf prefix separator ++ k ++ separator ++ v.
Proof. reflexivity. Qed.

(** Decoding a name that starts with the expected prefix. *)
Lemma parseStateLabel_prefixed (r prefix separator : string) :
  parseStateLabel (expectedPrefixOf prefix separator ++ r) prefix separator =
  match indexOf r separator with
  | None => None
  | Some i =>
      Some {| key := take i r; value := drop (i + String.length separator) r |}
  end.
Proof.
  rewrite parseStateLabel_eq. cbv zeta.
  now rewrite startsWith_append, drop_append.
Qed.

Lemma parse_split (k v sep : string) :
  indexOf (k ++ sep ++ v) sep = Some (String.length k) ->
  take (String.length k) (k ++ sep ++ v) = k /\
  drop (String.length k + String.length sep) (k ++ sep ++ v) = v.
Proof.
  intros _. split; [apply take_append|].
  rewrite <- append_assoc, <- length_append. apply drop_append.
Qed.

(** The decoder returns [(k, v)] exactly on the names that are the
    expected prefix followed by [k], the separator and [v], where that
    separator is the first one after the prefix. *)
Lemma parseStateLabel_Some (labelName prefix separator k v : string) :
  parseStateLabel labelName prefix separator = Some {| key := k; value := v |}
  <->
  labelName = expectedPrefixOf prefix separator ++ k ++ separator ++ v /\
  indexOf (k ++ separator ++ v) separator = Some (String.length k).
Proof.
  split.
  - rewrite parseStateLabel_eq. cbv zeta.
    destruct (startsWith _ _) eqn:P; [|discriminate].
    apply startsWith_iff in P. destruct P as [r ->].
    rewrite drop_append.
    destruct (indexOf r separator) as [i|] eqn:I; [|discriminate].
    intros [= Hk Hv].
    pose proof (proj1 (indexOf_Some _ _ _) I) as [(a & b & E & L) _].
    assert (K : k = a).
    { rewrite <- Hk, E, <- L. apply take_append. }
    assert (V : v = b).
    { rewrite <- Hv, E, <- L, <- append_assoc, <- length_append.
      apply drop_append. }
    subst a b. rewrite E in *. subst i. now split.
  - intros [-> I]. rewrite parseStateLabel_prefixed, I.
    destruct (parse_split _ _ _ I) as [-> ->]. reflexivity.
Qed.

Lemma parseStateLabel_None (labelName prefix separator : string) :
  parseStateLabel labelName prefix separator = None <->
  startsWith labelName (expectedPrefixOf prefix separator) = false \/
  ~ occurs separator
      (drop (String.length (expectedPrefixOf prefix separator)) labelName).
Proof.
  rewrite parseStateLabel_eq. cbv zeta.
  destruct (startsWith _ _).
  - rewrite <- indexOf_None.
    destruct (indexOf _ separator); split; try discriminate; auto.
    + intros [H|H]; discriminate.
  - split; auto.
Qed.

(** Decoding what [createStateLabelName] built. *)
Lemma parse_create (k v prefix separator : string) :
  parseStateLabel (createStateLabelName k v prefix separator) prefix separator =
  match indexOf (k ++ separator ++ v) separator with
  | None => None
  | Some i =>
      Some {| key := take i (k ++ separator ++ v);
              value := drop (i + String.length separator) (k ++ separator ++ v) |}
  end.
Proof. rewrite createStateLabelName_eq. apply parseStateLabel_prefixed. Qed.

Lemma roundtrip_iff (k v prefix separator : string) :
  parseStateLabel (createStateLabelName k v prefix separator) prefix separator
    = Some {| key := k; value := v |}
  <-> indexOf (k ++ separator) separator = Some (String.length k).
Proof.
  rewrite <- indexOf_key with (v := v), parseStateLabel_Some,
    createStateLabelName_eq.
  tauto.
Qed.

End Codec.

(** ** Claims on the codec *)

(** C1, as the specification states it, fails: the key ["a:"] contains no
    ["::"], yet the name built for it decodes to the key ["a"] and the
    value [":v"], because the first ["::"] of ["a:::v"] begins inside the
    key. *)
Lemma roundtrip_overlap_counterexample :
  "::" <> "" /\
  ~ occurs "::" "a:" /\
  createStateLabelName "a:" "v" "state" "::" = "state::a:::v" /\
  parseStateLabel (createStateLabelName "a:" "v" "state" "::") "state" "::"
    = Some {| key := "a"; value := ":v" |} /\
  parseStateLabel (createStateLabelName "a:" "v" "state" "::") "state" "::"
    <> Some {| key := "a:"; value := "v" |}.
Proof.
  split; [discriminate|].
  split; [now apply indexOf_None|].
  split; [reflexivity|].
  split; [reflexivity | discriminate].
Qed.

(** C1 (amended): for a non-empty separator, decoding the name built from
    (key, value, prefix, separator) with the same prefix and separator gives
    back exactly (key, value) if and only if the first occurrence of the
    separator in the key followed by the separator is the one at the end
    of the key, that is, no occurrence begins inside the key, overlapping
    ones included; the value is unconstrained and may contain the
    separator. *)
Theorem parse_create_roundtrip (k v prefix separator : string) :
  separator <> "" ->
  (parseStateLabel (createStateLabelName k v prefix separator) prefix separator
     = Some {| key := k; value := v |}
   <-> indexOf (k ++ separator) separator = Some (String.length k)).
Proof. intros _. apply roundtrip_iff. Qed.

Lemma parse_create_roundtrip_witness :
  "::" <> "" /\
  parseStateLabel
    (createStateLabelName "url" "https://example.com/a::b" "state" "::")
    "state" "::"
  = Some {| key := "url"; value := "https://example.com/a::b" |}.
Proof.
  assert (N : "::" <> "") by discriminate.
  split; [exact N|].
  apply (proj2 (parse_create_roundtrip "url" "https://example.com/a::b"
                  "state" "::" N)).
  reflexivity.
Defined.

(** C3: the source misses the case of the empty key.  In ["state::::v"]
    the key portion before the first separator after the prefix is empty;
    the decoder worded by the specification fails there, and so does the
    test suite expect of a label with no key, but [parseStateLabel]
    has no such check and returns the empty key with the value ["v"]. *)
Theorem parseStateLabel_empty_key :
  parseStateLabel "state::::v" "state" "::"
    = Some {| key := ""; value := "v" |} /\
  parseLabel_spec "state::::v" "state" "::" = None.
Proof. split; reflexivity. Qed.

(** What [parseStateLabel] does, case by case: it returns none exactly
    when the name does not start with the expected prefix or the remainder
    after that prefix contains no occurrence of the separator; otherwise it
    returns the key before the first separator of the remainder and the
    entire rest as the value, further occurrences of the separator
    included; a name whose key portion is empty decodes to the empty
    key. *)
Theorem parseStateLabel_cases (labelName prefix separator : string) :
  let expectedPrefix := if truthy prefix then prefix ++ separator else "" in
  (parseStateLabel labelName prefix separator = None <->
     startsWith labelName expectedPrefix = false \/
     ~ occurs separator (drop (String.length expectedPrefix) labelName)) /\
  (forall k v,
     parseStateLabel labelName prefix separator
       = Some {| key := k; value := v |} <->
     labelName = expectedPrefix ++ k ++ separator ++ v /\
     forall m, occursAt separator (k ++ separator ++ v) m ->
               String.length k <= m) /\
  (forall v,
     parseStateLabel (expectedPrefix ++ separator ++ v) prefix separator
       = Some {| key := ""; value := v |}).
Proof.
  cbv zeta. fold (expectedPrefixOf prefix separator).
  split; [apply parseStateLabel_None|]. split.
  - intros k v. rewrite parseStateLabel_Some, indexOf_Some.
    pose proof (occursAt_here separator k v). tauto.
  - intros v. apply (parseStateLabel_Some _ _ _ "" v). split; [reflexivity|].
    simpl. apply indexOf_Some. split; [|lia].
    apply (occursAt_here separator "" v).
Qed.

(** The cases of the test suite for the codec. *)
Example parseStateLabel_tests :
  parseStateLabel "state::key::value" "state" "::"
    = Some {| key := "key"; value := "value" |} /\
  parseStateLabel "bug" "state" "::" = None /\
  parseStateLabel "other::key::value" "state" "::" = None /\
  parseStateLabel "state::key" "state" "::" = None /\
  parseStateLabel "state::" "state" "::" = None /\
  parseStateLabel "state::url::https://example.com/path" "state" "::"
    = Some {| key := "url"; value := "https://example.com/path" |} /\
  parseStateLabel "context__env__prod" "context" "__"
    = Some {| key := "env"; value := "prod" |} /\
  parseStateLabel "phase::deploy" "" "::"
    = Some {| key := "phase"; value := "deploy" |}.
Proof. repeat split. Qed.

Example createStateLabelName_tests :
  createStateLabelName "key" "value" "state" "::" = "state::key::value" /\
  createStateLabelName "env" "prod" "context" "__" = "context__env__prod" /\
  createStateLabelName "phase" "deploy" "" "::" = "phase::deploy".
Proof. repeat split. Qed.

(** ** Value canonicalisation *)

Lemma convertValue_id (v : string) : convertValue v = v.
Proof.
  unfold convertValue. cbv zeta.
  destruct (negb _ && (JsNumber.toString _ =? v)) eqn:E; [|reflexivity].
  apply andb_true_iff in E. destruct E as [_ E].
  now apply String.eqb_eq in E.
Qed.

(** C9: value canonicalisation is idempotent:
    [convertValue (convertValue v) = convertValue v] for every string. *)
Theorem convertValue_idempotent (v : string) :
  convertValue (convertValue v) = convertValue v.
Proof. now rewrite !convertValue_id. Qed.

Example convertValue_tests :
  map convertValue ["42"; "0"; "-42"; "hello"; "work in progress"; "42.5";
                    "42abc"; "007"; "-0"; " 7"; "9007199254740993"]
  = ["42"; "0"; "-42"; "hello"; "work in progress"; "42.5";
     "42abc"; "007"; "-0"; " 7"; "9007199254740993"].
Proof. vm_compute. reflexivity. Qed.

(** What [parseInt] and [toString] make of some of those inputs. *)
Example parseInt_toString_tests :
  map (fun s => JsNumber.toString (JsNumber.parseInt10 s))
      ["42"; "-42"; "hello"; "42.5"; "007"; "-0"; " 7";
       "9007199254740993"; "18446744073709551616";
       "1000000000000000000000"]
  = ["42"; "-42"; "NaN"; "42"; "7"; "0"; "7";
     "9007199254740992"; "18446744073709552000"; "1e+21"].
Proof. vm_compute. reflexivity. Qed.

(** ** The usage check *)

Import Operations.
Import Runs.

(** Strict equality of numbers, and the test of the usage check on an
    issue: with an infinite issue number every issue is another one. *)
Example strictEquals_tests :
  JsNumber.strictEquals (JsNumber.Int 123) (JsNumber.Int 123) = true /\
  JsNumber.strictEquals (JsNumber.Int 123) (JsNumber.Int 456) = false /\
  JsNumber.strictEquals (JsNumber.Int 0) JsNumber.NegZero = true /\
  JsNumber.strictEquals JsNumber.NaN JsNumber.NaN = false /\
  JsNumber.strictEquals (JsNumber.Int 123) (JsNumber.Infinity false) = false /\
  isOther (Fixtures.contextWith []) Fixtures.own = false /\
  isOther (Fixtures.contextWith []) Fixtures.other = true.
Proof. repeat split. Qed.

Section UsageCheck.

Context {W : Type}.
Variable context : OperationContext W.
Variable labelName : string.

Local Abbreviation others := (filter (isOther context)).

Lemma others_nil (issues : list Issue) :
  others issues = [] <->
  forall issue, In issue issues -> isOther context issue = false.
Proof.
  induction issues as [|i issues IH]; simpl.
  - split; [intros _ ? [] | reflexivity].
  - destruct (isOther context i) eqn:E.
    + split; [discriminate|]. intros H.
      rewrite (H i (or_introl eq_refl)) in E. discriminate.
    + rewrite IH. split.
      * intros H x [<-|Hx]; auto.
      * intros H x Hx. apply H. now right.
Qed.

Lemma others_cons (issues : list Issue) :
  (exists issue, In issue issues /\ isOther context issue = true) ->
  (0 <? List.length (others issues))%nat = true.
Proof.
  intros (i & Hi & Ni).
  destruct (others issues) as [|x l] eqn:E; [|reflexivity].
  rewrite (proj1 (others_nil issues) E i Hi) in Ni. discriminate.
Qed.

Lemma extend_nil (env : Env W) : extend env [] [] = env.
Proof. destruct env. unfold extend. simpl. now rewrite !app_nil_r. Qed.

Lemma extend_extend (env : Env W) cs1 ls1 cs2 ls2 :
  extend (extend env cs1 ls1) cs2 ls2
  = extend env (cs1 ++ cs2)%list (ls1 ++ ls2)%list.
Proof. unfold extend. simpl. now rewrite !app_assoc. Qed.

Lemma listForRepo_run (env : Env W) (page : nat) :
  listForRepo (octokit context) (owner context) (repo context)
    labelName "all" perPage page env
  = (match pageAt (pagesOf context labelName (world env)) page with
     | inl error => Threw error
     | inr data => Returned data
     end,
     extend env (listCallsFrom context labelName page 1) []).
Proof.
  unfold listForRepo, pageAt, pagesOf, extend, sent, listCallsFrom. simpl.
  rewrite app_nil_r.
  destruct (nth_error _ (page - 1)) as [[e|d]|]; reflexivity.
Qed.

Lemma listCallsFrom_S (from n : nat) :
  listCallsFrom context labelName from (S n)
  = (listCallsFrom context labelName from 1
     ++ listCallsFrom context labelName (from + 1) n)%list.
Proof.
  unfold listCallsFrom. simpl. now rewrite Nat.add_1_r.
Qed.

(** One round of the loop. *)
Lemma pagingLoop_S (fuel page : nat) (env : Env W) :
  pagingLoop (S fuel) context labelName page env =
  let env' := extend env (listCallsFrom context labelName page 1) [] in
  match pageAt (pagesOf context labelName (world env)) page with
  | inl error => (Threw error, env')
  | inr issues =>
      if (0 <? List.length (others issues))%nat then (Returned true, env')
      else if (List.length issues <? 100)%nat then (Returned false, env')
      else pagingLoop fuel context labelName (page + 1) env'
  end.
Proof.
  cbn [pagingLoop]. unfold bind at 1. rewrite listForRepo_run. cbv zeta.
  destruct (pageAt _ page) as [e|issues]; [reflexivity|].
  destruct (0 <? _)%nat; [reflexivity|].
  change perPage with 100.
  destruct (_ <? 100)%nat; reflexivity.
Qed.

(** The loop asks for the pages in turn, up to the first one on which it
    ends. *)
Lemma pagingLoop_stops (fuel : nat) :
  forall (page n : nat) (env : Env W) (r : Outcome bool),
    page <= n -> n - page < fuel ->
    (forall p, page <= p < n ->
               goesOn context (pageAt (pagesOf context labelName (world env)) p)) ->
    stopsWith context (pageAt (pagesOf context labelName (world env)) n) r ->
    pagingLoop fuel context labelName page env
    = (r, extend env (listCallsFrom context labelName page (S n - page)) []).
Proof.
  induction fuel as [|fuel IH]; intros page n env r Hle Hfuel Hon Hstop;
    [lia|].
  rewrite pagingLoop_S. cbv zeta.
  destruct (Nat.eq_dec page n) as [->|Hne].
  - replace (S n - n) with 1 by lia.
    inversion Hstop as [e He|issues Hex He|issues Hall Hshort He]; subst.
    + reflexivity.
    + now rewrite others_cons.
    + rewrite (proj2 (others_nil issues) Hall).
      change (0 <? List.length (@nil Issue))%nat with false. cbv iota.
      apply Nat.ltb_lt in Hshort. now rewrite Hshort.
  - destruct (Hon page) as (issues & -> & Hall & Hfull); [lia|].
    rewrite (proj2 (others_nil issues) Hall).
      change (0 <? List.length (@nil Issue))%nat with false. cbv iota.
    apply Nat.ltb_ge in Hfull. rewrite Hfull.
    pose proof (IH (page + 1) n
                  (extend env (listCallsFrom context labelName page 1) []) r)
      as R.
    cbn [extend world] in R. rewrite R; try lia; try assumption.
    + rewrite extend_extend. cbn [app].
      replace (S n - page) with (S (S n - (page + 1))) by lia.
      now rewrite (listCallsFrom_S page (S n - (page + 1))).
    + intros p Hp. apply Hon. lia.
Qed.

(** The loop never runs out of rounds when it is given one more than the
    service holds pages: it ends on some page with a result or a
    failure. *)
Lemma pagingLoop_ends (fuel : nat) :
  forall (page : nat) (env : Env W),
    1 <= page -> 1 <= fuel ->
    List.length (pagesOf context labelName (world env)) + 2 <= fuel + page ->
    exists n r,
      page <= n /\
      (forall p, page <= p < n ->
                 goesOn context (pageAt (pagesOf context labelName (world env)) p)) /\
      stopsWith context (pageAt (pagesOf context labelName (world env)) n) r /\
      pagingLoop fuel context labelName page env
      = (r, extend env (listCallsFrom context labelName page (S n - page)) []).
Proof.
  induction fuel as [|fuel IH]; intros page env Hpage Hfuel Hlen; [lia|].
  set (pages := pagesOf context labelName (world env)) in *.
  assert (Here :
    forall r, stopsWith context (pageAt pages page) r ->
    exists n r,
      page <= n /\
      (forall p, page <= p < n -> goesOn context (pageAt pages p)) /\
      stopsWith context (pageAt pages n) r /\
      pagingLoop (S fuel) context labelName page env
      = (r, extend env (listCallsFrom context labelName page (S n - page)) [])).
  { intros r Hr. exists page, r. split; [lia|]. split; [intros p; lia|].
    split; [exact Hr|].
    apply pagingLoop_stops; try lia; exact Hr. }
  destruct (pageAt pages page) as [e|issues] eqn:Epage.
  - apply (Here _ (stops_failed context e)).
  - destruct (others issues) as [|x l] eqn:Eo.
    + destruct (Nat.ltb_spec (List.length issues) 100) as [Hshort|Hfull].
      * apply (Here (Returned false)). constructor; [|exact Hshort].
        now apply others_nil.
      * assert (Hon : goesOn context (pageAt pages page)).
        { exists issues. split; [exact Epage|]. split; [|exact Hfull].
          now apply others_nil. }
        assert (Hin : page - 1 < List.length pages).
        { unfold pageAt in Epage.
          destruct (nth_error pages (page - 1)) eqn:En.
          - apply nth_error_Some. congruence.
          - injection Epage as <-. simpl in Hfull. lia. }
        pose proof (IH (page + 1)
                     (extend env (listCallsFrom context labelName page 1) []))
          as R.
        cbn [extend world] in R. fold pages in R.
        destruct R as (n & r & Hn & Hons & Hstop & Hrun); try lia.
        exists n, r. split; [lia|]. split; [|split; [exact Hstop|]].
        -- intros p Hp. destruct (Nat.eq_dec p page) as [->|]; [exact Hon|].
           apply Hons. lia.
        -- rewrite pagingLoop_S. cbv zeta. fold pages. rewrite Epage, Eo.
           change (0 <? List.length (@nil Issue))%nat with false. cbv iota.
           apply Nat.ltb_ge in Hfull. rewrite Hfull, Hrun, extend_extend.
           cbn [app].
           replace (S n - page) with (S (S n - (page + 1))) by lia.
           now rewrite (listCallsFrom_S page (S n - (page + 1))).
    + apply (Here (Returned true)). constructor.
      assert (Hx : In x (others issues)) by (rewrite Eo; now left).
      apply filter_In in Hx. destruct Hx as [Hx Nx].
      exists x. split; [exact Hx | exact Nx].
Qed.

End UsageCheck.

Section UsageCheckClaims.

Context {W : Type}.
Variable context : OperationContext W.
Variable labelName : string.

Lemma goesOn_within (pages : list (Thrown + list Issue)) (p : nat) :
  1 <= p -> goesOn context (pageAt pages p) -> p <= List.length pages.
Proof.
  intros Hp (issues & E & _ & Hfull). unfold pageAt in E.
  destruct (nth_error pages (p - 1)) eqn:En.
  - assert (p - 1 < List.length pages) by (apply nth_error_Some; congruence).
    lia.
  - injection E as <-. simpl in Hfull. lia.
Qed.

(** The run of the loop inside [isLabelUsedByOthers], with the rounds the
    function gives it. *)
Lemma usageLoop_stops (env : Env W) (n : nat) (r : Outcome bool) :
  1 <= n ->
  (forall p, 1 <= p < n ->
             goesOn context (pageAt (pagesOf context labelName (world env)) p)) ->
  stopsWith context (pageAt (pagesOf context labelName (world env)) n) r ->
  pagingLoop (S (List.length (pagesOf context labelName (world env))))
    context labelName 1 env
  = (r, extend env (listCalls context labelName n) []).
Proof.
  intros Hn Hon Hstop. unfold listCalls.
  rewrite (pagingLoop_stops context labelName _ 1 n env r); try assumption.
  - now replace (S n - 1) with n by lia.
  - destruct (Nat.eq_dec n 1) as [->|Hne]; [lia|].
    assert (n - 1 <= List.length (pagesOf context labelName (world env))).
    { apply goesOn_within; [lia|]. apply Hon. lia. }
    lia.
Qed.

Lemma isLabelUsedByOthers_stops (env : Env W) (n : nat) (r : Outcome bool) :
  1 <= n ->
  (forall p, 1 <= p < n ->
             goesOn context (pageAt (pagesOf context labelName (world env)) p)) ->
  stopsWith context (pageAt (pagesOf context labelName (world env)) n) r ->
  isLabelUsedByOthers context labelName env
  = match r with
    | Threw error =>
        (Returned true,
         extend env (listCalls context labelName n)
           [checkFailedWarning labelName error])
    | _ => (r, extend env (listCalls context labelName n) [])
    end.
Proof.
  intros Hn Hon Hstop. unfold isLabelUsedByOthers, tryCatch.
  rewrite (usageLoop_stops env n r Hn Hon Hstop).
  destruct r as [b|e|]; try reflexivity.
  unfold bind, core_warning, ret, logged, extend, checkFailedWarning. simpl.
  now rewrite app_nil_r.
Qed.

(** The usage check always returns: it neither throws nor runs out of
    rounds, it only sends listing requests, for pages 1 to some [n], and
    it logs at most the warning of a failed request. *)
Lemma isLabelUsedByOthers_returns (env : Env W) :
  exists (isUsed : bool) (n : nat) (lines : list LogLine),
    1 <= n /\
    isLabelUsedByOthers context labelName env
    = (Returned isUsed, extend env (listCalls context labelName n) lines).
Proof.
  destruct (pagingLoop_ends context labelName
              (S (List.length (pagesOf context labelName (world env)))) 1 env)
    as (n & r & Hn & Hon & Hstop & _); try lia.
  rewrite (isLabelUsedByOthers_stops env n r Hn Hon Hstop).
  inversion Hstop; subst; eauto 6.
Qed.

End UsageCheckClaims.

(** A full page of the fixtures makes the loop go on. *)
Lemma goesOn_full_page (pages : list (Thrown + list Issue)) :
  forall p, 1 <= p < 2 ->
    goesOn (Fixtures.contextWith (Fixtures.fullPage :: pages))
      (pageAt (Fixtures.fullPage :: pages) p).
Proof.
  intros p Hp. assert (p = 1) by lia. subst p.
  exists (repeat Fixtures.own 100). split; [reflexivity|]. split.
  - intros issue Hi. apply repeat_spec in Hi. now subst.
  - rewrite repeat_length. lia.
Qed.

(** C6: when a page-listing request of the usage check fails, whichever
    page it is for (the pages before it having made the loop go on),
    [isLabelUsedByOthers] returns true and logs the warning of the failed
    check; and in no run does it throw: every run returns a boolean. *)
Theorem isLabelUsedByOthers_fail_safe {W : Type}
    (context : OperationContext W) (labelName : string) (env : Env W) :
  (exists isUsed env',
      isLabelUsedByOthers context labelName env = (Returned isUsed, env')) /\
  (forall (n : nat) (error : Thrown),
      1 <= n ->
      (forall p, 1 <= p < n ->
         goesOn context (pageAt (pagesOf context labelName (world env)) p)) ->
      pageAt (pagesOf context labelName (world env)) n = inl error ->
      isLabelUsedByOthers context labelName env
      = (Returned true,
         extend env (listCalls context labelName n)
           [Warning ("Failed to check if label '" ++ labelName
                     ++ "' is used by other issues: "
                     ++ match error with
                        | ErrorObject message => message
                        | OtherValue => "Unknown error"
                        end)])).
Proof.
  split.
  - destruct (isLabelUsedByOthers_returns context labelName env)
      as (b & n & lines & _ & E).
    eauto.
  - intros n error Hn Hon Hpage.
    apply (isLabelUsedByOthers_stops context labelName env n (Threw error) Hn Hon).
    rewrite Hpage. constructor.
Qed.

Lemma isLabelUsedByOthers_fail_safe_witness :
  isLabelUsedByOthers
    (Fixtures.contextWith [Fixtures.fullPage; inl (ErrorObject "API error")])
    "state::step::1" Fixtures.mockEnv
  = (Returned true,
     extend Fixtures.mockEnv
       (listCalls
          (Fixtures.contextWith [Fixtures.fullPage; inl (ErrorObject "API error")])
          "state::step::1" 2)
       [Warning "Failed to check if label 'state::step::1' is used by other issues: API error"]).
Proof.
  refine (proj2 (isLabelUsedByOthers_fail_safe
                   (Fixtures.contextWith [Fixtures.fullPage;
                                 inl (ErrorObject "API error")])
                   "state::step::1" Fixtures.mockEnv)
            2 (ErrorObject "API error") _ (goesOn_full_page _) eq_refl).
  lia.
Defined.

(** C7: the usage check asks for the pages 1, 2, ... in turn, 100 issues
    to the page.  When the pages before page [n] are full and name no
    issue but the context's, then: if page [n] names an issue whose number
    is not the context's, the check returns true having asked for pages 1
    to [n] and no more; if page [n] names no such issue and holds fewer
    than 100 issues, the check returns false. *)
Theorem isLabelUsedByOthers_paging {W : Type}
    (context : OperationContext W) (labelName : string) (env : Env W)
    (n : nat) (issues : list Issue) :
  1 <= n ->
  (forall p, 1 <= p < n ->
     goesOn context (pageAt (pagesOf context labelName (world env)) p)) ->
  pageAt (pagesOf context labelName (world env)) n = inr issues ->
  ((exists issue, In issue issues /\ isOther context issue = true) ->
   isLabelUsedByOthers context labelName env
   = (Returned true, extend env (listCalls context labelName n) [])) /\
  ((forall issue, In issue issues -> isOther context issue = false) ->
   List.length issues < 100 ->
   isLabelUsedByOthers context labelName env
   = (Returned false, extend env (listCalls context labelName n) [])).
Proof.
  intros Hn Hon Hpage. split.
  - intros Hex.
    apply (isLabelUsedByOthers_stops context labelName env n (Returned true) Hn Hon).
    rewrite Hpage. now constructor.
  - intros Hall Hshort.
    apply (isLabelUsedByOthers_stops context labelName env n (Returned false) Hn Hon).
    rewrite Hpage. now constructor.
Qed.

Lemma isLabelUsedByOthers_paging_witness :
  isLabelUsedByOthers
    (Fixtures.contextWith [Fixtures.fullPage; inr [Fixtures.own; Fixtures.other]])
    "state::step::1" Fixtures.mockEnv
  = (Returned true,
     extend Fixtures.mockEnv
       (listCalls (Fixtures.contextWith [Fixtures.fullPage; inr [Fixtures.own; Fixtures.other]])
          "state::step::1" 2) []) /\
  isLabelUsedByOthers
    (Fixtures.contextWith [Fixtures.fullPage; inr [Fixtures.own]])
    "state::step::1" Fixtures.mockEnv
  = (Returned false,
     extend Fixtures.mockEnv
       (listCalls (Fixtures.contextWith [Fixtures.fullPage; inr [Fixtures.own]])
          "state::step::1" 2) []).
Proof.
  split.
  - refine (proj1 (isLabelUsedByOthers_paging
                     (Fixtures.contextWith [Fixtures.fullPage; inr [Fixtures.own; Fixtures.other]])
                     "state::step::1" Fixtures.mockEnv 2 [Fixtures.own; Fixtures.other]
                     _ (goesOn_full_page _) eq_refl) _).
    + lia.
    + exists Fixtures.other. split; [right; now left | reflexivity].
  - refine (proj2 (isLabelUsedByOthers_paging
                     (Fixtures.contextWith [Fixtures.fullPage; inr [Fixtures.own]])
                     "state::step::1" Fixtures.mockEnv 2 [Fixtures.own]
                     _ (goesOn_full_page _) eq_refl) _ _).
    + lia.
    + intros issue [<-|[]]. reflexivity.
    + simpl. lia.
Defined.

(** ** The [set] operation *)

Section SetOperation.

Context {W : Type}.
Variable context : OperationContext W.
Variables (k v : string) (currentLabels : list Label).

Local Abbreviation newLabels := (newLabelsOf context k v currentLabels).
Local Abbreviation replaceCall :=
  (SetLabels (owner context) (repo context) (issueNumber context) newLabels).
Local Abbreviation done :=
  {| success := true; value := None; state := None |}.

(** A rejected replacement call ends the operation: the failure
    propagates. *)
Lemma setOperation_rejected (env : Env W) (error : Thrown) (w1 : W) :
  issues_setLabels (octokit context) (world env) (owner context) (repo context)
    (issueNumber context) newLabels = (Some error, w1) ->
  setOperation context k v currentLabels env
  = (Threw error, sent replaceCall w1 env).
Proof.
  intros H. unfold newLabelsOf in *.
  unfold setOperation, bind, setLabels. cbv zeta. now rewrite H.
Qed.

(** The run of the operation after an accepted replacement call. *)
Lemma setOperation_accepted (env : Env W) (w1 : W) :
  issues_setLabels (octokit context) (world env) (owner context) (repo context)
    (issueNumber context) newLabels = (None, w1) ->
  let env1 := sent replaceCall w1 env in
  match existingLabelOf context k currentLabels with
  | Some existing =>
      if deleteUnusedLabels context then
        exists (isUsed : bool) (n : nat) (lines : list LogLine),
          1 <= n /\
          let env2 := extend env1 (listCalls context (name existing) n) lines in
          isLabelUsedByOthers context (name existing) env1
            = (Returned isUsed, env2) /\
          setOperation context k v currentLabels env
          = (Returned done,
             if isUsed then
               logged (Info ("Skipping deletion of label '" ++ name existing
                             ++ "' as it is used by other issues/PRs")) env2
             else
               let '(failure, w3) :=
                 issues_deleteLabel (octokit context) (world env2)
                   (owner context) (repo context) (name existing) in
               logged
                 match failure with
                 | None =>
                     Info ("Deleted old label '" ++ name existing
                           ++ "' from repository")
                 | Some (ErrorObject message) =>
                     Warning ("Failed to delete old label '" ++ name existing
                              ++ "' from repository: " ++ message)
                 | Some OtherValue =>
                     Warning ("Failed to delete old label '" ++ name existing
                              ++ "' from repository: Unknown error")
                 end
                 (sent (DeleteLabel (owner context) (repo context)
                          (name existing)) w3 env2))
      else setOperation context k v currentLabels env = (Returned done, env1)
  | None => setOperation context k v currentLabels env = (Returned done, env1)
  end.
Proof.
  intros H env1. unfold newLabelsOf in *.
  assert (Start :
    forall A (rest : Async W A),
      bind (setLabels (octokit context) (owner context) (repo context)
              (issueNumber context)
              (map name (labelsToKeepOf context k currentLabels)
               ++ [newLabelNameOf context k v])%list)
           (fun _ => rest) env
      = rest env1).
  { intros A rest. unfold bind, setLabels. now rewrite H. }
  unfold setOperation. cbv zeta.
  destruct (existingLabelOf context k currentLabels) as [existing|];
    [|now rewrite Start].
  destruct (deleteUnusedLabels context); [|now rewrite Start].
  destruct (isLabelUsedByOthers_returns context (name existing) env1)
    as (isUsed & n & lines & Hn & E).
  exists isUsed, n, lines. split; [exact Hn|]. cbv zeta. split; [exact E|].
  rewrite Start. unfold bind at 1. unfold bind at 1. rewrite E.
  destruct isUsed; cbn [negb]; [reflexivity|].
  unfold tryCatch, bind, deleteLabel.
  destruct (issues_deleteLabel _ _ _ _ _) as [[[message|]|] w3]; reflexivity.
Qed.

End SetOperation.

(** The cases of [setOperation_accepted], opened in a goal about the run. *)
Ltac set_cases R :=
  cbv zeta in R;
  destruct (existingLabelOf _ _ _) as [?existing|];
  [ destruct (deleteUnusedLabels _);
    [ destruct R as (?isUsed & ?n & ?lines & ?Hn & ?Hcheck & ->)
    | rewrite R ]
  | rewrite R ].

Section Replacement.

Context {W : Type}.
Variable context : OperationContext W.

Lemma keeps_negb (k : string) (label : Label) :
  keeps context k label = negb (decodesTo context k label).
Proof.
  unfold keeps, decodesTo.
  now destruct (parseStateLabel _ _ _).
Qed.

Lemma labelsToKeepOf_filter (k : string) (labels : list Label) :
  labelsToKeepOf context k labels
  = filter (fun label => negb (decodesTo context k label)) labels.
Proof.
  unfold labelsToKeepOf. apply filter_ext. intros l. apply keeps_negb.
Qed.

Lemma countKey_kept (k : string) (labels : list Label) :
  countKey context k (labelsToKeepOf context k labels) = 0.
Proof.
  unfold countKey. rewrite labelsToKeepOf_filter.
  induction labels as [|l labels IH]; [reflexivity|]. simpl.
  destruct (decodesTo context k l) eqn:D; simpl; [exact IH|].
  now rewrite D.
Qed.

(** The count of the labels decoding to a key reads only the names. *)
Lemma countKey_names (k : string) (labels labels' : list Label) :
  map name labels = map name labels' ->
  countKey context k labels = countKey context k labels'.
Proof.
  unfold countKey. revert labels'.
  induction labels as [|l labels IH]; intros [|l' labels'] E;
    try discriminate; [reflexivity|].
  simpl in E. injection E as En E.
  simpl. unfold decodesTo at 1 3. rewrite En.
  fold (decodesTo context k l').
  destruct (decodesTo context k l'); simpl; auto.
Qed.

Lemma countKey_app (k : string) (l1 l2 : list Label) :
  countKey context k (l1 ++ l2)
  = countKey context k l1 + countKey context k l2.
Proof. unfold countKey. now rewrite filter_app, length_app. Qed.

(** The new label decodes to the key when the key's end is where the
    separator first occurs. *)
Lemma decodesTo_new (k v : string) (label : Label) :
  indexOf (k ++ separator context) (separator context)
    = Some (String.length k) ->
  name label = newLabelNameOf context k v ->
  decodesTo context k label = true.
Proof.
  intros I E. unfold decodesTo. rewrite E. unfold newLabelNameOf.
  rewrite (proj2 (roundtrip_iff k (convertValue v) (prefix context)
                    (separator context)) I).
  apply String.eqb_refl.
Qed.

Lemma map_eq_app_inv {A B} (f : A -> B) (l : list A) (m1 m2 : list B) :
  map f l = (m1 ++ m2)%list ->
  exists l1 l2, l = (l1 ++ l2)%list /\ map f l1 = m1 /\ map f l2 = m2.
Proof.
  revert l; induction m1 as [|b m1 IH]; intros l E.
  - exists [], l. auto.
  - destruct l as [|a l]; [discriminate|]. simpl in E. injection E as Ea E.
    destruct (IH l E) as (l1 & l2 & -> & <- & <-).
    exists (a :: l1), l2. simpl. now rewrite Ea.
Qed.

(** One [set] call leaves exactly one label decoding to the key. *)
Lemma countKey_after_set (k v : string) (labels labels' : list Label) :
  indexOf (k ++ separator context) (separator context)
    = Some (String.length k) ->
  map name labels' = newLabelsOf context k v labels ->
  countKey context k labels' = 1.
Proof.
  intros I E. unfold newLabelsOf in E.
  destruct (map_eq_app_inv _ _ _ _ E) as (l1 & l2 & -> & E1 & E2).
  rewrite countKey_app, (countKey_names k l1 _ E1), countKey_kept.
  destruct l2 as [|x [|y l2]]; try discriminate.
  simpl in E2. injection E2 as E2.
  unfold countKey. simpl. now rewrite (decodesTo_new k v x I E2).
Qed.

Lemma find_first {A} (f : A -> bool) (before : list A) (x : A) (after : list A) :
  (forall y, In y before -> f y = false) -> f x = true ->
  find f (before ++ x :: after) = Some x.
Proof.
  intros Hb Hx. induction before as [|y before IH]; simpl.
  - now rewrite Hx.
  - rewrite (Hb y) by now left. apply IH. intros z Hz. apply Hb. now right.
Qed.

Lemma find_absent {A} (f : A -> bool) (l : list A) :
  (forall y, In y l -> f y = false) -> find f l = None.
Proof.
  intros H. induction l as [|y l IH]; [reflexivity|]. simpl.
  rewrite (H y) by now left. apply IH. intros z Hz. apply H. now right.
Qed.

Lemma no_setLabels_in_listCalls (labelName : string) (n : nat) :
  filter isSetLabels (listCalls context labelName n) = [].
Proof.
  unfold listCalls. generalize 1 as from.
  induction n as [|n IH]; intros from; [reflexivity|]. apply (IH (S from)).
Qed.

End Replacement.

Section SetRuns.

Context {W : Type}.
Variable context : OperationContext W.
Variables (k v : string) (currentLabels : list Label).

(** What a [set] returns, by the answer to its list-replace call. *)
Lemma setOperation_outcome (env : Env W) :
  fst (setOperation context k v currentLabels env)
  = match fst (issues_setLabels (octokit context) (world env) (owner context)
                 (repo context) (issueNumber context)
                 (newLabelsOf context k v currentLabels)) with
    | None => Returned {| success := true; value := None; state := None |}
    | Some error => Threw error
    end.
Proof.
  destruct (issues_setLabels _ _ _ _ _ _) as [[error|] w1] eqn:E.
  - now rewrite (setOperation_rejected context k v currentLabels env error w1 E).
  - pose proof (setOperation_accepted context k v currentLabels env w1 E) as R.
    set_cases R; reflexivity.
Qed.

(** The calls of a [set]: the list-replace call comes first and is the
    only one of its kind. *)
Lemma setOperation_calls (env : Env W) :
  exists rest,
    calls (snd (setOperation context k v currentLabels env))
    = (calls env
       ++ SetLabels (owner context) (repo context) (issueNumber context)
            (newLabelsOf context k v currentLabels) :: rest)%list /\
    filter isSetLabels rest = [].
Proof.
  destruct (issues_setLabels (octokit context) (world env) (owner context)
              (repo context) (issueNumber context)
              (newLabelsOf context k v currentLabels))
    as [[error|] w1] eqn:E.
  - rewrite (setOperation_rejected context k v currentLabels env error w1 E).
    now exists [].
  - pose proof (setOperation_accepted context k v currentLabels env w1 E) as R.
    set_cases R; try (now exists []).
    destruct isUsed.
    + exists (listCalls context (name existing) n). split.
      * cbn [snd calls logged extend sent]. now rewrite <- app_assoc.
      * apply no_setLabels_in_listCalls.
    + destruct (issues_deleteLabel _ _ _ _ _) as [failure w3].
      exists (listCalls context (name existing) n
              ++ [DeleteLabel (owner context) (repo context)
                    (name existing)])%list.
      split.
      * cbn [snd calls logged extend sent]. now rewrite <- !app_assoc.
      * now rewrite filter_app, no_setLabels_in_listCalls.
Qed.

End SetRuns.

(** C2, as the specification states it, fails: with separator ["::"] the
    label written for the key ["a:"] decodes to the key ["a"], so that
    after one [set] call no label decodes to ["a:"], and after two calls
    neither does, while two labels decode to ["a"]. *)
Lemma setSequence_overlap_counterexample :
  let context :=
    Fixtures.mockContext (Fixtures.mockOctokit [] None None) false in
  let plain := fun n => {| name := n; color := None; description := None |} in
  let once := [plain "state::a:::1"] in
  let twice := [plain "state::a:::1"; plain "state::a:::2"] in
  setSequence context "a:" [] ["1"] once /\
  countKey context "a:" once = 0 /\
  setSequence context "a:" [] ["1"; "2"] twice /\
  countKey context "a:" twice = 0 /\
  countKey context "a" twice = 2.
Proof.
  cbv zeta. split; [|split; [|split; [|split]]]; try reflexivity.
  - now apply setSequence_last.
  - apply setSequence_next with
      (labels1 := [{| name := "state::a:::1"; color := None;
                      description := None |}]); [reflexivity|].
    now apply setSequence_last.
Qed.

(** C2 (amended): when the first occurrence of the separator in the key
    followed by the separator is the one at the end of the key, then for
    every initial label list and every non-empty sequence of [set] calls
    for that key, with any values, the label list that results from the
    replacement lists contains exactly one label decoding to the key.  And
    for every key: when the list holds several labels decoding to the key,
    the first in list order is the existing label, and every label
    decoding to the key is stripped from the labels kept. *)
Theorem setSequence_one_label {W : Type} (context : OperationContext W)
    (k : string) :
  (indexOf (k ++ separator context) (separator context)
     = Some (String.length k) ->
   forall labels values labels',
     setSequence context k labels values labels' ->
     countKey context k labels' = 1) /\
  (forall before first after,
     (forall label, In label before -> decodesTo context k label = false) ->
     decodesTo context k first = true ->
     existingLabelOf context k (before ++ first :: after) = Some first /\
     labelsToKeepOf context k (before ++ first :: after)
     = filter (fun label => negb (decodesTo context k label)) (before ++ after)
     /\
     forall label,
       In label (labelsToKeepOf context k (before ++ first :: after)) ->
       decodesTo context k label = false).
Proof.
  split.
  - intros I labels values labels' Hseq.
    induction Hseq as [labels v labels' E | labels v labels1 values labels' E _ IH].
    + exact (countKey_after_set context k v labels labels' I E).
    + exact IH.
  - intros before first after Hb Hf. split; [|split].
    + now apply find_first.
    + rewrite labelsToKeepOf_filter, !filter_app. simpl. now rewrite Hf.
    + intros label Hl. rewrite labelsToKeepOf_filter in Hl.
      apply filter_In in Hl. now apply negb_true_iff.
Qed.

Lemma setSequence_one_label_witness :
  let context :=
    Fixtures.mockContext (Fixtures.mockOctokit [] None None) false in
  let plain := fun n => {| name := n; color := None; description := None |} in
  indexOf ("step" ++ "::") "::" = Some 4 /\
  setSequence context "step" Fixtures.mockLabels ["2"; "3"]
    (map plain ["bug"; "state::status::pending"; "enhancement";
                "state::step::3"]) /\
  countKey context "step"
    (map plain ["bug"; "state::status::pending"; "enhancement";
                "state::step::3"]) = 1.
Proof.
  cbv zeta.
  assert (I : indexOf ("step" ++ "::") "::" = Some 4) by reflexivity.
  assert (S : setSequence
                (Fixtures.mockContext (Fixtures.mockOctokit [] None None) false)
                "step" Fixtures.mockLabels ["2"; "3"]
                (map (fun n => {| name := n; color := None; description := None |})
                   ["bug"; "state::status::pending"; "enhancement";
                    "state::step::3"])).
  { apply setSequence_next with
      (labels1 := map (fun n => {| name := n; color := None;
                                   description := None |})
                    ["bug"; "state::status::pending"; "enhancement";
                     "state::step::2"]); [reflexivity|].
    now apply setSequence_last. }
  split; [exact I|]. split; [exact S|].
  exact (proj1 (setSequence_one_label
                  (Fixtures.mockContext (Fixtures.mockOctokit [] None None) false)
                  "step") I _ _ _ S).
Defined.

(** C4, as the specification states it, fails in its last part: when the
    service rejects the list-replace call, the operation does not return
    success true, the failure propagates to the caller. *)
Lemma setOperation_rejected_counterexample :
  let context :=
    Fixtures.mockContext
      (Fixtures.mockOctokit [] (Some (ErrorObject "API error")) None) false in
  setOperation context "step" "2" Fixtures.mockLabels Fixtures.mockEnv
  = (Threw (ErrorObject "API error"),
     {| world := Fixtures.mockWorld;
        calls := [SetLabels "test-owner" "test-repo" (JsNumber.Int 123)
                    ["bug"; "state::status::pending"; "enhancement";
                     "state::step::2"]];
        log := [] |}) /\
  fst (setOperation context "step" "2" Fixtures.mockLabels Fixtures.mockEnv)
  <> Returned {| success := true; value := None; state := None |}.
Proof. split; [reflexivity | discriminate]. Qed.

(** C4 (amended): in every run of [set(key, value)] exactly one
    list-replace call is sent, before any other call, and its label-name
    list is the current labels without every label decoding to the key, in
    their order, with the newly formatted label name appended; the
    operation returns success true when the service accepts that call, and
    when the service rejects it the failure propagates.  On labels named
    ["bug"; "state::step::1"; "state::status::pending"; "enhancement"],
    with prefix ["state"] and separator ["::"], [set("step", "2")] sends
    ["bug"; "state::status::pending"; "enhancement"; "state::step::2"]. *)
Theorem setOperation_replacement {W : Type} (context : OperationContext W)
    (k v : string) (currentLabels : list Label) (env : Env W) :
  let newLabels := newLabelsOf context k v currentLabels in
  let run := setOperation context k v currentLabels env in
  newLabels
  = (map name
       (filter (fun label => negb (decodesTo context k label)) currentLabels)
     ++ [createStateLabelName k (convertValue v)
           (prefix context) (separator context)])%list /\
  (exists rest,
      calls (snd run)
      = (calls env
         ++ SetLabels (owner context) (repo context) (issueNumber context)
              newLabels :: rest)%list /\
      filter isSetLabels rest = []) /\
  fst run
  = match fst (issues_setLabels (octokit context) (world env) (owner context)
                 (repo context) (issueNumber context) newLabels) with
    | None => Returned {| success := true; value := None; state := None |}
    | Some error => Threw error
    end /\
  (prefix context = "state" -> separator context = "::" ->
   map name currentLabels
   = ["bug"; "state::step::1"; "state::status::pending"; "enhancement"] ->
   newLabelsOf context "step" "2" currentLabels
   = ["bug"; "state::status::pending"; "enhancement"; "state::step::2"]).
Proof.
  cbv zeta. split; [|split; [|split]].
  - unfold newLabelsOf. now rewrite labelsToKeepOf_filter.
  - apply setOperation_calls.
  - apply setOperation_outcome.
  - intros Hp Hs Hn. unfold newLabelsOf, newLabelNameOf.
    rewrite labelsToKeepOf_filter, Hp, Hs.
    destruct currentLabels as [|l1 [|l2 [|l3 [|l4 [|l5 rest]]]]];
      try discriminate.
    destruct l1 as [n1 c1 d1], l2 as [n2 c2 d2], l3 as [n3 c3 d3],
      l4 as [n4 c4 d4].
    simpl in Hn. injection Hn as -> -> -> ->.
    unfold decodesTo. rewrite Hp, Hs. vm_compute. reflexivity.
Qed.

Lemma setOperation_replacement_witness :
  newLabelsOf
    (Fixtures.mockContext (Fixtures.mockOctokit [] None None) false)
    "step" "2" Fixtures.mockLabels
  = ["bug"; "state::status::pending"; "enhancement"; "state::step::2"].
Proof.
  apply (proj2 (proj2 (proj2
    (setOperation_replacement
       (Fixtures.mockContext (Fixtures.mockOctokit [] None None) false)
       "step" "2" Fixtures.mockLabels Fixtures.mockEnv))));
    reflexivity.
Defined.

(** C5: when no label of the current list decodes to the key,
    [removeOperation] returns success false and the run leaves everything
    as it was: no call is sent (no list replacement, no usage check, no
    deletion), nothing is logged, and the state of the service, entity
    and catalog alike, is unchanged. *)
Theorem removeOperation_absent_key {W : Type} (context : OperationContext W)
    (k : string) (currentLabels : list Label) (env : Env W) :
  (forall label parsed,
      In label currentLabels ->
      parseStateLabel (name label) (prefix context) (separator context)
        = Some parsed ->
      Labels.key parsed <> k) ->
  removeOperation context k currentLabels env
  = (Returned {| success := false; value := None; state := None |}, env).
Proof.
  intros H. unfold removeOperation. cbv zeta.
  unfold existingLabelOf. rewrite find_absent; [reflexivity|].
  intros label Hl. unfold decodesTo.
  destruct (parseStateLabel _ _ _) as [parsed|] eqn:P; [|reflexivity].
  apply String.eqb_neq. exact (H label parsed Hl P).
Qed.

Lemma removeOperation_absent_key_witness :
  removeOperation
    (Fixtures.mockContext (Fixtures.mockOctokit [] None None) true)
    "non-existent" Fixtures.mockLabels Fixtures.mockEnv
  = (Returned {| success := false; value := None; state := None |},
     Fixtures.mockEnv).
Proof.
  apply removeOperation_absent_key.
  intros label parsed Hl.
  simpl in Hl.
  destruct Hl as [<-|[<-|[<-|[<-|[]]]]]; vm_compute;
    intros P; inversion P; discriminate.
Defined.

(** C8: whenever the list-replace call of a [set] is accepted, the
    operation returns success true; in particular when the deletion of the
    old label from the repository is attempted and fails, the failure is
    caught and logged as a warning, and the result is still success
    true. *)
Theorem setOperation_success {W : Type} (context : OperationContext W)
    (k v : string) (currentLabels : list Label) (env : Env W) (w1 : W) :
  issues_setLabels (octokit context) (world env) (owner context) (repo context)
    (issueNumber context) (newLabelsOf context k v currentLabels)
  = (None, w1) ->
  fst (setOperation context k v currentLabels env)
  = Returned {| success := true; value := None; state := None |} /\
  (forall existing env2 error w3,
      existingLabelOf context k currentLabels = Some existing ->
      deleteUnusedLabels context = true ->
      isLabelUsedByOthers context (name existing)
        (sent (SetLabels (owner context) (repo context) (issueNumber context)
                 (newLabelsOf context k v currentLabels)) w1 env)
      = (Returned false, env2) ->
      issues_deleteLabel (octokit context) (world env2) (owner context)
        (repo context) (name existing) = (Some error, w3) ->
      setOperation context k v currentLabels env
      = (Returned {| success := true; value := None; state := None |},
         logged
           (Warning ("Failed to delete old label '" ++ name existing
                     ++ "' from repository: "
                     ++ match error with
                        | ErrorObject message => message
                        | OtherValue => "Unknown error"
                        end))
           (sent (DeleteLabel (owner context) (repo context) (name existing))
                 w3 env2))).
Proof.
  intros E.
  pose proof (setOperation_accepted context k v currentLabels env w1 E) as R.
  cbv zeta in R. split.
  - now rewrite setOperation_outcome, E.
  - intros existing env2 error w3 Hex Hdel Hcheck Hfail.
    rewrite Hex, Hdel in R.
    destruct R as (isUsed & n & lines & _ & Hcheck' & ->).
    rewrite Hcheck in Hcheck'. injection Hcheck' as <- <-.
    rewrite Hfail. now destruct error.
Qed.

Lemma setOperation_success_witness :
  let context :=
    Fixtures.mockContext
      (Fixtures.mockOctokit [inr []] None
         (Some (ErrorObject "Label deletion failed"))) true in
  fst (setOperation context "step" "2" Fixtures.mockLabels Fixtures.mockEnv)
  = Returned {| success := true; value := None; state := None |} /\
  log (snd (setOperation context "step" "2" Fixtures.mockLabels
              Fixtures.mockEnv))
  = [Warning "Failed to delete old label 'state::step::1' from repository: Label deletion failed"].
Proof.
  cbv zeta. split.
  - refine (proj1 (setOperation_success _ "step" "2" Fixtures.mockLabels
                     Fixtures.mockEnv _ _)).
    reflexivity.
  - reflexivity.
Defined.

(** C10, as it is stated, fails on two kinds of calls.  On the labels
    [state::step::1; bug; state::step::2] the call [set(step, 2)] finds a
    label for the key that has the newly formatted name, but the existing
    label the source picks is the first one that decodes to the key: the
    usage check and the deletion go to [state::step::1], and none is sent
    for the name just written, which a check would report unused.  And
    when the service rejects the list-replace call, [set] throws and no
    usage check is run at all. *)
Lemma setOperation_first_label_counterexample :
  let labels :=
    [ {| name := "state::step::1"; color := None; description := None |};
      {| name := "bug"; color := None; description := None |};
      {| name := "state::step::2"; color := None; description := None |} ] in
  let context :=
    Fixtures.mockContext (Fixtures.mockOctokit [inr []] None None) true in
  let rejecting :=
    Fixtures.mockContext
      (Fixtures.mockOctokit [inr []] (Some (ErrorObject "API error")) None)
      true in
  (exists label,
      In label labels /\ decodesTo context "step" label = true /\
      name label = newLabelNameOf context "step" "2") /\
  deleteUnusedLabels context = true /\
  fst (isLabelUsedByOthers context "state::step::2" Fixtures.mockEnv)
  = Returned false /\
  setOperation context "step" "2" labels Fixtures.mockEnv
  = (Returned {| success := true; value := None; state := None |},
     {| world := {| Fixtures.issueLabels := ["bug"; "state::step::2"];
                    Fixtures.catalog :=
                      ["bug"; "state::status::pending"; "enhancement"; "bug";
                       "state::step::2"] |};
        calls :=
          [SetLabels "test-owner" "test-repo" (JsNumber.Int 123)
             ["bug"; "state::step::2"];
           ListForRepo "test-owner" "test-repo" "state::step::1" "all" 100 1;
           DeleteLabel "test-owner" "test-repo" "state::step::1"];
        log := [Info "Deleted old label 'state::step::1' from repository"] |})
  /\
  setOperation rejecting "step" "1" Fixtures.mockLabels Fixtures.mockEnv
  = (Threw (ErrorObject "API error"),
     {| world := Fixtures.mockWorld;
        calls :=
          [SetLabels "test-owner" "test-repo" (JsNumber.Int 123)
             ["bug"; "state::status::pending"; "enhancement";
              "state::step::1"]];
        log := [] |}).
Proof.
  cbv zeta. split.
  - exists {| name := "state::step::2"; color := None; description := None |}.
    split; [right; right; now left|]. split; reflexivity.
  - repeat split.
Qed.

(** C10 (amended): take a [set(key, value)] call on labels whose existing
    label for the key, the first label that decodes to it, already has the
    newly formatted name, with deleteUnusedLabels enabled and the
    list-replace call accepted.  The name is in the list just written to
    the entity; the usage check is still run on that name, right after the
    list-replace call; and when the check reports the name unused, the
    next and last call deletes that very name from the repository. *)
Theorem setOperation_deletes_written_label {W : Type}
    (context : OperationContext W) (k v : string)
    (currentLabels : list Label) (env : Env W) (existing : Label) (w1 : W) :
  existingLabelOf context k currentLabels = Some existing ->
  name existing
  = createStateLabelName k (convertValue v) (prefix context) (separator context) ->
  deleteUnusedLabels context = true ->
  issues_setLabels (octokit context) (world env) (owner context) (repo context)
    (issueNumber context) (newLabelsOf context k v currentLabels)
  = (None, w1) ->
  let newLabelName :=
    createStateLabelName k (convertValue v) (prefix context) (separator context) in
  let replaceCall :=
    SetLabels (owner context) (repo context) (issueNumber context)
      (newLabelsOf context k v currentLabels) in
  In newLabelName (newLabelsOf context k v currentLabels) /\
  exists (isUsed : bool) (n : nat) (lines : list LogLine),
    1 <= n /\
    isLabelUsedByOthers context newLabelName (sent replaceCall w1 env)
    = (Returned isUsed,
       extend (sent replaceCall w1 env)
         (listCalls context newLabelName n) lines) /\
    calls (snd (setOperation context k v currentLabels env))
    = (calls env ++ [replaceCall] ++ listCalls context newLabelName n
       ++ (if isUsed then []
           else [DeleteLabel (owner context) (repo context) newLabelName]))%list.
Proof.
  intros Hex Hname Hdel E. cbv zeta.
  pose proof (setOperation_accepted context k v currentLabels env w1 E) as R.
  cbv zeta in R. rewrite Hex, Hdel in R. rewrite Hname in R.
  split.
  - unfold newLabelsOf, newLabelNameOf. apply in_or_app. right. now left.
  - destruct R as (isUsed & n & lines & Hn & Hcheck & ->).
    exists isUsed, n, lines. split; [exact Hn|]. split; [exact Hcheck|].
    destruct isUsed.
    + cbn [snd calls logged extend sent].
      now rewrite app_nil_r, <- app_assoc.
    + destruct (issues_deleteLabel _ _ _ _ _) as [failure w3].
      cbn [snd calls logged extend sent]. now rewrite <- !app_assoc.
Qed.

Lemma setOperation_deletes_written_label_witness :
  let context :=
    Fixtures.mockContext (Fixtures.mockOctokit [inr []] None None) true in
  let replaceCall :=
    SetLabels "test-owner" "test-repo" (JsNumber.Int 123)
      (newLabelsOf context "step" "1" Fixtures.mockLabels) in
  let env1 :=
    sent replaceCall
      {| Fixtures.issueLabels :=
           newLabelsOf context "step" "1" Fixtures.mockLabels;
         Fixtures.catalog :=
           (map name Fixtures.mockLabels
            ++ newLabelsOf context "step" "1" Fixtures.mockLabels)%list |}
      Fixtures.mockEnv in
  In "state::step::1" (newLabelsOf context "step" "1" Fixtures.mockLabels) /\
  exists (isUsed : bool) (n : nat) (lines : list LogLine),
    1 <= n /\
    isLabelUsedByOthers context "state::step::1" env1
    = (Returned isUsed,
       extend env1 (listCalls context "state::step::1" n) lines) /\
    calls (snd (setOperation context "step" "1" Fixtures.mockLabels
                  Fixtures.mockEnv))
    = ([] ++ [replaceCall] ++ listCalls context "state::step::1" n
       ++ (if isUsed then []
           else [DeleteLabel "test-owner" "test-repo" "state::step::1"]))%list.
Proof.
  exact (setOperation_deletes_written_label
           (Fixtures.mockContext
              (Fixtures.mockOctokit [inr []] None None) true)
           "step" "1" Fixtures.mockLabels Fixtures.mockEnv
           {| name := "state::step::1"; color := Some "a2eeef";
              description := Some (Some "State label") |}
           _ eq_refl eq_refl eq_refl eq_refl).
Defined.

(** The run of that scenario: the label written to the entity is deleted
    from the repository's catalog. *)
Example set_unchanged_value_run :
  let context :=
    Fixtures.mockContext (Fixtures.mockOctokit [inr []] None None) true in
  let env' :=
    snd (setOperation context "step" "1" Fixtures.mockLabels Fixtures.mockEnv) in
  calls env'
  = [SetLabels "test-owner" "test-repo" (JsNumber.Int 123)
       ["bug"; "state::status::pending"; "enhancement"; "state::step::1"];
     ListForRepo "test-owner" "test-repo" "state::step::1" "all" 100 1;
     DeleteLabel "test-owner" "test-repo" "state::step::1"] /\
  Fixtures.issueLabels (world env')
  = ["bug"; "state::status::pending"; "enhancement"] /\
  log env' = [Info "Deleted old label 'state::step::1' from repository"].
Proof. vm_compute. auto. Qed.

(** ** Runs from the test suite *)

(** The old label is in use elsewhere: the deletion is skipped. *)
Example set_label_used_by_others :
  setOperation
    (Fixtures.contextWith [inr [Fixtures.other]])
    "step" "2" Fixtures.mockLabels Fixtures.mockEnv
  = (Returned {| success := true; value := None; state := None |},
     {| world :=
          {| Fixtures.issueLabels :=
               ["bug"; "state::status::pending"; "enhancement";
                "state::step::2"];
             Fixtures.catalog :=
               ["bug"; "state::step::1"; "state::status::pending";
                "enhancement"; "bug"; "state::status::pending";
                "enhancement"; "state::step::2"] |};
        calls :=
          [SetLabels "test-owner" "test-repo" (JsNumber.Int 123)
             ["bug"; "state::status::pending"; "enhancement";
              "state::step::2"];
           ListForRepo "test-owner" "test-repo" "state::step::1" "all" 100 1];
        log :=
          [Info "Skipping deletion of label 'state::step::1' as it is used by other issues/PRs"] |}).
Proof. vm_compute. reflexivity. Qed.

(** The listing fails: the label is kept and the operation succeeds. *)
Example set_listing_fails :
  let run :=
    setOperation
      (Fixtures.contextWith [inl (ErrorObject "API error")])
      "step" "2" Fixtures.mockLabels Fixtures.mockEnv in
  fst run = Returned {| success := true; value := None; state := None |} /\
  calls (snd run)
  = [SetLabels "test-owner" "test-repo" (JsNumber.Int 123)
       ["bug"; "state::status::pending"; "enhancement"; "state::step::2"];
     ListForRepo "test-owner" "test-repo" "state::step::1" "all" 100 1] /\
  log (snd run)
  = [Warning "Failed to check if label 'state::step::1' is used by other issues: API error";
     Info "Skipping deletion of label 'state::step::1' as it is used by other issues/PRs"].
Proof. vm_compute. auto. Qed.

(** [remove] of a key that is there, with the clean-up enabled. *)
Example remove_existing_key :
  let run :=
    removeOperation (Fixtures.contextWith [inr []])
      "step" Fixtures.mockLabels Fixtures.mockEnv in
  fst run = Returned {| success := true; value := None; state := None |} /\
  calls (snd run)
  = [SetLabels "test-owner" "test-repo" (JsNumber.Int 123)
       ["bug"; "state::status::pending"; "enhancement"];
     ListForRepo "test-owner" "test-repo" "state::step::1" "all" 100 1;
     DeleteLabel "test-owner" "test-repo" "state::step::1"] /\
  log (snd run) = [Info "Deleted label 'state::step::1' from repository"].
Proof. vm_compute. auto. Qed.

(** ** The state of a label list *)

Import StateLabels.
Import ReadOperations.
Import States.

Section StateFacts.

Variables prefix separator : string.

Lemma own_update (o : JsObject.Obj) (k v k' : string) :
  JsObject.own (JsObject.update o k v) k'
  = if String.eqb k k' then Some v else JsObject.own o k'.
Proof.
  induction o as [|[k0 v0] o IH]; simpl.
  - reflexivity.
  - destruct (String.eqb_spec k0 k) as [->|N]; simpl.
    + now destruct (String.eqb_spec k k').
    + destruct (String.eqb_spec k0 k') as [->|N'].
      * destruct (String.eqb_spec k k'); [congruence | reflexivity].
      * exact IH.
Qed.

Lemma own_set (o : JsObject.Obj) (k v k' : string) :
  JsObject.own (JsObject.set o k v) k'
  = if String.eqb k "__proto__" then JsObject.own o k'
    else if String.eqb k k' then Some v else JsObject.own o k'.
Proof.
  unfold JsObject.set. destruct (String.eqb k "__proto__"); [reflexivity|].
  apply own_update.
Qed.

Lemma keys_update (o : JsObject.Obj) (k v : string) :
  map fst (JsObject.update o k v)
  = match JsObject.own o k with
    | Some _ => map fst o
    | None => (map fst o ++ [k])%list
    end.
Proof.
  induction o as [|[k0 v0] o IH]; simpl; [reflexivity|].
  destruct (String.eqb_spec k0 k) as [->|N]; simpl; [reflexivity|].
  rewrite IH. now destruct (JsObject.own o k).
Qed.

Lemma own_None_keys (o : JsObject.Obj) (k : string) :
  JsObject.own o k = None <-> ~ In k (map fst o).
Proof.
  induction o as [|[k0 v0] o IH]; simpl; [tauto|].
  destruct (String.eqb_spec k0 k) as [->|N].
  - split; [discriminate | intros H; exfalso; apply H; now left].
  - rewrite IH. split; [intros H [E|I]; auto | tauto].
Qed.

Lemma NoDup_update (o : JsObject.Obj) (k v : string) :
  NoDup (map fst o) -> NoDup (map fst (JsObject.update o k v)).
Proof.
  intros H. rewrite keys_update.
  destruct (JsObject.own o k) eqn:E; [exact H|].
  apply own_None_keys in E.
  apply NoDup_app; [exact H | repeat constructor; auto | ].
  intros x Hx [<-|[]]. contradiction.
Qed.

Let step (state : StateLabels) (label : Label) : StateLabels :=
  match parseStateLabel (name label) prefix separator with
  | Some parsed => JsObject.set state (Labels.key parsed) (Labels.value parsed)
  | None => state
  end.

Lemma own_step (state : StateLabels) (label : Label) (k : string) :
  k <> "__proto__" ->
  JsObject.own (step state label) k
  = match valueFor prefix separator k label with
    | Some v => Some v
    | None => JsObject.own state k
    end.
Proof.
  intros Hk. unfold step, valueFor.
  destruct (parseStateLabel _ _ _) as [[k0 v0]|]; [|reflexivity].
  rewrite own_set. simpl.
  destruct (String.eqb_spec k0 "__proto__") as [->|N].
  - destruct (String.eqb_spec "__proto__" k); [congruence | reflexivity].
  - now destruct (String.eqb k0 k).
Qed.

Lemma own_fold (labels : list Label) :
  forall (state : StateLabels) (k : string),
    k <> "__proto__" ->
    JsObject.own (fold_left step labels state) k
    = match lastValue prefix separator k labels with
      | Some v => Some v
      | None => JsObject.own state k
      end.
Proof.
  induction labels as [|l labels IH]; intros state k Hk; simpl;
    [reflexivity|].
  rewrite IH by exact Hk.
  destruct (lastValue prefix separator k labels); [reflexivity|].
  now apply own_step.
Qed.

Lemma proto_fold (labels : list Label) :
  forall state : StateLabels,
    JsObject.own state "__proto__" = None ->
    JsObject.own (fold_left step labels state) "__proto__" = None.
Proof.
  induction labels as [|l labels IH]; intros state H; simpl; [exact H|].
  apply IH. unfold step.
  destruct (parseStateLabel _ _ _) as [[k0 v0]|]; [|exact H].
  rewrite own_set. simpl.
  destruct (String.eqb_spec k0 "__proto__") as [->|N]; [exact H|].
  destruct (String.eqb_spec k0 "__proto__"); [contradiction | exact H].
Qed.

Lemma NoDup_fold (labels : list Label) :
  forall state : StateLabels,
    NoDup (map fst state) -> NoDup (map fst (fold_left step labels state)).
Proof.
  induction labels as [|l labels IH]; intros state H; simpl; [exact H|].
  apply IH. unfold step.
  destruct (parseStateLabel _ _ _) as [[k0 v0]|]; [|exact H].
  unfold JsObject.set. simpl.
  destruct (String.eqb k0 "__proto__"); [exact H|].
  now apply NoDup_update.
Qed.

(** The own property of the state for a key. *)
Lemma own_extract (labels : list Label) (k : string) :
  JsObject.own (extractStateLabels labels prefix separator) k
  = if String.eqb k "__proto__" then None
    else lastValue prefix separator k labels.
Proof.
  unfold extractStateLabels. fold step.
  destruct (String.eqb_spec k "__proto__") as [->|N].
  - now apply proto_fold.
  - rewrite own_fold by exact N.
    now destruct (lastValue prefix separator k labels).
Qed.

Lemma lastValue_app (k : string) (l1 l2 : list Label) :
  lastValue prefix separator k (l1 ++ l2)
  = match lastValue prefix separator k l2 with
    | Some v => Some v
    | None => lastValue prefix separator k l1
    end.
Proof.
  induction l1 as [|l l1 IH]; simpl.
  - now destruct (lastValue prefix separator k l2).
  - rewrite IH. now destruct (lastValue prefix separator k l2).
Qed.

Lemma lastValue_None (k : string) (labels : list Label) :
  lastValue prefix separator k labels = None <->
  forall label, In label labels -> valueFor prefix separator k label = None.
Proof.
  induction labels as [|l labels IH]; simpl.
  - split; [intros _ ? [] | reflexivity].
  - destruct (lastValue prefix separator k labels) as [v|].
    + split; [discriminate|]. intros H.
      assert (Some v = None); [|discriminate].
      apply IH. intros label Hl. apply H. now right.
    + split.
      * intros H label [<-|Hl]; [exact H | now apply IH].
      * intros H. apply H. now left.
Qed.

(** The last label decoding to a key, spelled out. *)
Lemma lastValue_Some (k v : string) (labels : list Label) :
  lastValue prefix separator k labels = Some v <->
  exists before label after,
    labels = (before ++ label :: after)%list /\
    valueFor prefix separator k label = Some v /\
    forall label', In label' after -> valueFor prefix separator k label' = None.
Proof.
  split.
  - induction labels as [|l labels IH]; simpl; [discriminate|].
    destruct (lastValue prefix separator k labels) as [v'|] eqn:E.
    + intros [= ->]. destruct (IH eq_refl) as (b & x & a & -> & Hx & Ha).
      now exists (l :: b), x, a.
    + intros H. exists [], l, labels. split; [reflexivity|]. split; [exact H|].
      now apply lastValue_None.
  - intros (b & x & a & -> & Hx & Ha). rewrite lastValue_app. simpl.
    now rewrite (proj2 (lastValue_None k a) Ha), Hx.
Qed.

Lemma lastValue_names (k : string) (labels labels' : list Label) :
  map name labels = map name labels' ->
  lastValue prefix separator k labels = lastValue prefix separator k labels'.
Proof.
  revert labels'. induction labels as [|l labels IH]; intros [|l' labels'] E;
    try discriminate; [reflexivity|].
  simpl in E. injection E as En E. simpl.
  rewrite (IH labels' E). unfold valueFor. now rewrite En.
Qed.

End StateFacts.

Section ReadFacts.

Context {W : Type}.
Variable context : OperationContext W.

Lemma valueFor_decodesTo (k : string) (label : Label) :
  valueFor (prefix context) (separator context) k label = None <->
  decodesTo context k label = false.
Proof.
  unfold valueFor, decodesTo.
  destruct (parseStateLabel _ _ _) as [[k0 v0]|]; simpl; [|tauto].
  destruct (String.eqb k0 k); split; congruence.
Qed.

Lemma valueFor_parse (k v : string) (label : Label) :
  valueFor (prefix context) (separator context) k label = Some v <->
  parseStateLabel (name label) (prefix context) (separator context)
  = Some {| Labels.key := k; Labels.value := v |}.
Proof.
  unfold valueFor.
  destruct (parseStateLabel _ _ _) as [[k0 v0]|]; simpl.
  - destruct (String.eqb_spec k0 k) as [->|N]; split; congruence.
  - split; discriminate.
Qed.

Lemma not_decoding (k : string) (labels : list Label) :
  (forall label parsed,
      In label labels ->
      parseStateLabel (name label) (prefix context) (separator context)
        = Some parsed ->
      Labels.key parsed <> k) <->
  (forall label, In label labels ->
      valueFor (prefix context) (separator context) k label = None).
Proof.
  split; intros H label.
  - intros Hl. unfold valueFor.
    destruct (parseStateLabel _ _ _) as [parsed|] eqn:P; [|reflexivity].
    destruct (String.eqb_spec (Labels.key parsed) k) as [E|N]; [|reflexivity].
    now destruct (H label parsed Hl P).
  - intros parsed Hl P E. specialize (H label Hl). unfold valueFor in H.
    rewrite P in H. apply String.eqb_eq in E. rewrite E in H. discriminate.
Qed.

(** What [getOperation] does, by the last label decoding to the key. *)
Lemma getOperation_run (k : string) (labels : list Label) (env : Env W) :
  getOperation context k labels env
  = (Returned
       match (if String.eqb k "__proto__" then None
              else lastValue (prefix context) (separator context) k labels) with
       | Some v => found v
       | None => nothingFound k
       end,
     env).
Proof.
  unfold getOperation, JsObject.get. cbv zeta. rewrite own_extract.
  destruct (if String.eqb k "__proto__" then None else lastValue _ _ k labels);
    [reflexivity|].
  unfold nothingFound. now destruct (JsObject.inPrototype k).
Qed.

Lemma lastValue_kept_other (k k' : string) (labels : list Label) :
  k' <> k ->
  lastValue (prefix context) (separator context) k'
    (labelsToKeepOf context k labels)
  = lastValue (prefix context) (separator context) k' labels.
Proof.
  intros N. unfold labelsToKeepOf.
  induction labels as [|l labels IH]; [reflexivity|]. simpl.
  destruct (keeps context k l) eqn:K; simpl; rewrite IH; [reflexivity|].
  destruct (lastValue _ _ k' labels); [reflexivity|].
  symmetry. unfold keeps in K. unfold valueFor.
  destruct (parseStateLabel _ _ _) as [[k0 v0]|]; [|discriminate].
  simpl in *. apply negb_false_iff, String.eqb_eq in K. subst k0.
  destruct (String.eqb_spec k k'); [congruence | reflexivity].
Qed.

Lemma lastValue_kept_self (k : string) (labels : list Label) :
  lastValue (prefix context) (separator context) k
    (labelsToKeepOf context k labels) = None.
Proof.
  apply lastValue_None. intros label Hl. apply valueFor_decodesTo.
  rewrite labelsToKeepOf_filter in Hl. apply filter_In in Hl.
  now apply negb_true_iff.
Qed.

(** The labels read back after a [set]: the labels kept, then one label
    with the new name. *)
Lemma readback_set (k v : string) (labels labels' : list Label) :
  map name labels' = newLabelsOf context k v labels ->
  exists kept new,
    labels' = (kept ++ [new])%list /\
    map name kept = map name (labelsToKeepOf context k labels) /\
    name new = newLabelNameOf context k v.
Proof.
  intros E. unfold newLabelsOf in E.
  destruct (map_eq_app_inv _ _ _ _ E) as (l1 & l2 & -> & E1 & E2).
  destruct l2 as [|x [|y l2]]; try discriminate.
  injection E2 as E2. now exists l1, x.
Qed.

Lemma valueFor_new (k v k' : string) (new : Label) :
  indexOf (k ++ separator context) (separator context)
    = Some (String.length k) ->
  name new = newLabelNameOf context k v ->
  valueFor (prefix context) (separator context) k' new
  = if String.eqb k k' then Some v else None.
Proof.
  intros I E. unfold valueFor. rewrite E. unfold newLabelNameOf.
  rewrite (proj2 (roundtrip_iff k (convertValue v) (prefix context)
                    (separator context)) I).
  simpl. now rewrite convertValue_id.
Qed.

Lemma lastValue_after_set (k v k' : string) (labels labels' : list Label) :
  indexOf (k ++ separator context) (separator context)
    = Some (String.length k) ->
  map name labels' = newLabelsOf context k v labels ->
  lastValue (prefix context) (separator context) k' labels'
  = if String.eqb k k' then Some v
    else lastValue (prefix context) (separator context) k' labels.
Proof.
  intros I E. destruct (readback_set k v labels labels' E)
    as (kept & new & -> & Ek & En).
  rewrite lastValue_app. simpl. rewrite (valueFor_new k v k' new I En).
  destruct (String.eqb_spec k k') as [->|N]; [reflexivity|].
  rewrite (lastValue_names _ _ k' kept _ Ek).
  apply lastValue_kept_other. congruence.
Qed.

End ReadFacts.

(** X1: the state read off a label list holds every key once, never the
    key [__proto__], and holds the value [v] for a key exactly when the
    last label of the list that decodes to that key decodes to [v]. *)
Theorem extractStateLabels_last_wins (labels : list Label)
    (prefix separator : string) :
  NoDup (map fst (extractStateLabels labels prefix separator)) /\
  forall k v,
    JsObject.own (extractStateLabels labels prefix separator) k = Some v <->
    k <> "__proto__" /\
    exists before label after,
      labels = (before ++ label :: after)%list /\
      parseStateLabel (name label) prefix separator
      = Some {| Labels.key := k; Labels.value := v |} /\
      forall label' parsed,
        In label' after ->
        parseStateLabel (name label') prefix separator = Some parsed ->
        Labels.key parsed <> k.
Proof.
  pose (context :=
          {| octokit := {| issues_listForRepo := fun (_ : unit) _ _ _ _ _ => [];
                           issues_setLabels := fun w _ _ _ _ => (None, w);
                           issues_deleteLabel := fun w _ _ _ => (None, w) |};
             owner := ""; repo := ""; issueNumber := JsNumber.Int 0;
             Operations.prefix := prefix; Operations.separator := separator;
             deleteUnusedLabels := false |}).
  split.
  - unfold extractStateLabels. apply NoDup_fold. constructor.
  - intros k v. rewrite own_extract.
    destruct (String.eqb_spec k "__proto__") as [->|N].
    + split; [discriminate | intros [H _]; congruence].
    + rewrite lastValue_Some. split.
      * intros (b & x & a & -> & Hx & Ha). split; [exact N|].
        exists b, x, a. split; [reflexivity|].
        split; [exact (proj1 (valueFor_parse context k v x) Hx)|].
        exact (proj2 (not_decoding context k a) Ha).
      * intros (_ & b & x & a & -> & Hx & Ha).
        exists b, x, a. split; [reflexivity|].
        split; [exact (proj2 (valueFor_parse context k v x) Hx)|].
        exact (proj1 (not_decoding context k a) Ha).
Qed.

(** X2: [get] returns the value of the last label that decodes to the
    key, with success true, whatever labels precede it, also earlier ones
    for the same key; it sends no call and logs nothing. *)
Theorem getOperation_last_label {W : Type} (context : OperationContext W)
    (k v : string) (before : list Label) (label : Label) (after : list Label)
    (env : Env W) :
  k <> "__proto__" ->
  parseStateLabel (name label) (prefix context) (separator context)
  = Some {| Labels.key := k; Labels.value := v |} ->
  (forall label' parsed,
      In label' after ->
      parseStateLabel (name label') (prefix context) (separator context)
        = Some parsed ->
      Labels.key parsed <> k) ->
  getOperation context k (before ++ label :: after) env
  = (Returned
       (Output {| success := true; value := Some (Some v); state := None |}),
     env).
Proof.
  intros N Hl Ha. rewrite getOperation_run.
  destruct (String.eqb_spec k "__proto__"); [contradiction|].
  assert (L : lastValue (prefix context) (separator context) k
                (before ++ label :: after) = Some v).
  { apply lastValue_Some. exists before, label, after.
    split; [reflexivity|]. split; [now apply valueFor_parse|].
    now apply not_decoding. }
  now rewrite L.
Qed.

Lemma getOperation_last_label_witness :
  getOperation (Fixtures.contextWith [])
    "step"
    ({| name := "state::step::0"; color := None; description := None |}
     :: Fixtures.mockLabels)
    Fixtures.mockEnv
  = (Returned
       (Output {| success := true; value := Some (Some "1"); state := None |}),
     Fixtures.mockEnv).
Proof.
  apply (getOperation_last_label (Fixtures.contextWith []) "step" "1"
           [ {| name := "state::step::0"; color := None; description := None |};
             {| name := "bug"; color := Some "f29513";
                description := Some (Some "Something isn't working") |} ]
           {| name := "state::step::1"; color := Some "a2eeef";
              description := Some (Some "State label") |}
           [ {| name := "state::status::pending"; color := Some "fbca04";
                description := Some (Some "State label") |};
             {| name := "enhancement"; color := Some "0e8a16";
                description := Some (Some "New feature or request") |} ]).
  - discriminate.
  - reflexivity.
  - intros label' parsed [<-|[<-|[]]]; vm_compute; intros P; inversion P;
      discriminate.
Defined.

(** X3: on a key that no label decodes to, [get] sends no call and
    returns success false with value null, unless the key names a
    property of [Object.prototype] ([toString], [constructor], ...): then
    the lookup finds the inherited property and the source returns it with
    success true. *)
Theorem getOperation_absent_key {W : Type} (context : OperationContext W)
    (k : string) (labels : list Label) (env : Env W) :
  (forall label parsed,
      In label labels ->
      parseStateLabel (name label) (prefix context) (separator context)
        = Some parsed ->
      Labels.key parsed <> k) ->
  getOperation context k labels env
  = (Returned
       (if JsObject.inPrototype k then InheritedOutput k
        else Output {| success := false; value := Some None; state := None |}),
     env).
Proof.
  intros H. rewrite getOperation_run.
  rewrite (proj2 (lastValue_None _ _ k labels)
             (proj1 (not_decoding context k labels) H)).
  now destruct (String.eqb k "__proto__").
Qed.

Lemma getOperation_absent_key_witness :
  getOperation (Fixtures.contextWith []) "non-existent" Fixtures.mockLabels
    Fixtures.mockEnv
  = (Returned
       (Output {| success := false; value := Some None; state := None |}),
     Fixtures.mockEnv) /\
  getOperation (Fixtures.contextWith []) "toString" Fixtures.mockLabels
    Fixtures.mockEnv
  = (Returned (InheritedOutput "toString"), Fixtures.mockEnv).
Proof.
  split.
  - apply (getOperation_absent_key (Fixtures.contextWith []) "non-existent").
    intros label parsed Hl. simpl in Hl.
    destruct Hl as [<-|[<-|[<-|[<-|[]]]]]; vm_compute;
      intros P; inversion P; discriminate.
  - apply (getOperation_absent_key (Fixtures.contextWith []) "toString").
    intros label parsed Hl. simpl in Hl.
    destruct Hl as [<-|[<-|[<-|[<-|[]]]]]; vm_compute;
      intros P; inversion P; discriminate.
Defined.

(** X4: [set] then [get].  When the first occurrence of the separator in
    the key followed by the separator is the one at the end of the key,
    [get] on the labels that a [set(key, value)] wrote returns the value,
    as it was given, with success true; and for any other key it returns
    what it returned on the labels before the [set].  The one key that
    cannot be read back is [__proto__]: the state never holds it. *)
Theorem get_after_set {W : Type} (context : OperationContext W)
    (k v : string) (labels labels' : list Label) (env : Env W) :
  indexOf (k ++ separator context) (separator context)
    = Some (String.length k) ->
  map name labels' = newLabelsOf context k v labels ->
  getOperation context k labels' env
  = (Returned
       (if String.eqb k "__proto__" then InheritedOutput k
        else Output {| success := true; value := Some (Some v);
                       state := None |}),
     env) /\
  forall k', k' <> k ->
    getOperation context k' labels' env = getOperation context k' labels env.
Proof.
  intros I E. split.
  - rewrite getOperation_run.
    destruct (String.eqb_spec k "__proto__") as [->|N]; [reflexivity|].
    rewrite (lastValue_after_set context k v k labels labels' I E).
    now rewrite String.eqb_refl.
  - intros k' N. rewrite !getOperation_run.
    rewrite (lastValue_after_set context k v k' labels labels' I E).
    destruct (String.eqb_spec k k'); [congruence | reflexivity].
Qed.

Lemma get_after_set_witness :
  let context := Fixtures.contextWith [] in
  let plain := fun n => {| name := n; color := None; description := None |} in
  let labels' :=
    map plain ["bug"; "state::status::pending"; "enhancement";
               "state::step::a::b"] in
  getOperation context "step" labels' Fixtures.mockEnv
  = (Returned
       (Output {| success := true; value := Some (Some "a::b");
                  state := None |}),
     Fixtures.mockEnv) /\
  forall k', k' <> "step" ->
    getOperation context k' labels' Fixtures.mockEnv
    = getOperation context k' Fixtures.mockLabels Fixtures.mockEnv.
Proof.
  exact (get_after_set (Fixtures.contextWith []) "step" "a::b"
           Fixtures.mockLabels
           (map (fun n => {| name := n; color := None; description := None |})
              ["bug"; "state::status::pending"; "enhancement";
               "state::step::a::b"])
           Fixtures.mockEnv eq_refl eq_refl).
Defined.

(** X5: [remove] then [get].  On the labels that a [remove(key)] left,
    [get] of that key finds nothing, whatever the key, and [get] of any
    other key returns what it returned before the [remove]. *)
Theorem get_after_remove {W : Type} (context : OperationContext W)
    (k : string) (labels labels' : list Label) (env : Env W) :
  map name labels' = map name (labelsToKeepOf context k labels) ->
  getOperation context k labels' env
  = (Returned
       (if JsObject.inPrototype k then InheritedOutput k
        else Output {| success := false; value := Some None; state := None |}),
     env) /\
  forall k', k' <> k ->
    getOperation context k' labels' env = getOperation context k' labels env.
Proof.
  intros E. split.
  - rewrite getOperation_run, (lastValue_names _ _ k _ _ E),
      lastValue_kept_self.
    now destruct (String.eqb k "__proto__").
  - intros k' N.
    now rewrite !getOperation_run, (lastValue_names _ _ k' _ _ E),
      lastValue_kept_other.
Qed.

Lemma get_after_remove_witness :
  let context := Fixtures.contextWith [] in
  let plain := fun n => {| name := n; color := None; description := None |} in
  let labels' := map plain ["bug"; "state::status::pending"; "enhancement"] in
  getOperation context "step" labels' Fixtures.mockEnv
  = (Returned
       (Output {| success := false; value := Some None; state := None |}),
     Fixtures.mockEnv) /\
  forall k', k' <> "step" ->
    getOperation context k' labels' Fixtures.mockEnv
    = getOperation context k' Fixtures.mockLabels Fixtures.mockEnv.
Proof.
  exact (get_after_remove (Fixtures.contextWith []) "step"
           Fixtures.mockLabels
           (map (fun n => {| name := n; color := None; description := None |})
              ["bug"; "state::status::pending"; "enhancement"])
           Fixtures.mockEnv eq_refl).
Defined.

Section StringifyFacts.

Lemma insertIndexed_cons e l : JsObject.insertIndexed e l <> [].
Proof. destruct l as [|e' l]; simpl; [|destruct (_ <=? _)%Z]; discriminate. Qed.

Lemma entries_nil (o : JsObject.Obj) : JsObject.entries o = [] <-> o = [].
Proof.
  split; [|now intros ->].
  destruct o as [|kv o]; [reflexivity|].
  unfold JsObject.entries, JsObject.indexedEntries. simpl.
  destruct (JsObject.arrayIndex (fst kv)).
  - intros H. apply app_eq_nil in H. destruct H as [H _].
    apply map_eq_nil in H. now apply insertIndexed_cons in H.
  - intros H. apply app_eq_nil in H. destruct H as [_ H]. discriminate.
Qed.

Lemma append_eq_nil (a b : string) : a ++ b = "" -> a = "" /\ b = "".
Proof. destruct a; simpl; [auto | discriminate]. Qed.

Lemma stringify_empty (o : JsObject.Obj) :
  Json.stringify o = "{}" <-> o = [].
Proof.
  split; [|now intros ->].
  intros H. apply entries_nil. unfold Json.stringify in H.
  destruct (JsObject.entries o) as [|kv l]; [reflexivity|].
  exfalso. simpl in H. injection H as H.
  destruct l; simpl in H; unfold Json.quoteJSONString, Json.quote in H;
    simpl in H; discriminate.
Qed.

End StringifyFacts.

(** X6: [getAll] sends no call, logs nothing and always returns success
    true; the state it returns is ["{}"] exactly when no label of the list
    decodes, the labels that decode to the key [__proto__] apart. *)
Theorem getAllOperation_empty {W : Type} (context : OperationContext W)
    (labels : list Label) (env : Env W) :
  exists text,
    getAllOperation context labels env
    = (Returned {| success := true; value := None; state := Some text |}, env)
    /\
    (text = "{}" <->
     forall label parsed,
       In label labels ->
       parseStateLabel (name label) (prefix context) (separator context)
         = Some parsed ->
       Labels.key parsed = "__proto__").
Proof.
  eexists. split; [reflexivity|]. rewrite stringify_empty. split.
  - intros E label parsed Hl P.
    destruct (String.eqb_spec (Labels.key parsed) "__proto__") as [|N];
      [assumption|].
    exfalso.
    pose proof (own_extract (prefix context) (separator context) labels
                  (Labels.key parsed)) as O.
    rewrite E in O. simpl in O.
    destruct (String.eqb_spec (Labels.key parsed) "__proto__");
      [contradiction|].
    symmetry in O.
    apply (proj1 (lastValue_None _ _ _ _) O label) in Hl.
    unfold valueFor in Hl. rewrite P, String.eqb_refl in Hl. discriminate.
  - intros H.
    destruct (extractStateLabels labels (prefix context) (separator context))
      as [|[k0 v0] o] eqn:E; [reflexivity|].
    exfalso.
    pose proof (own_extract (prefix context) (separator context) labels k0) as O.
    rewrite E in O. simpl in O. rewrite String.eqb_refl in O.
    destruct (String.eqb_spec k0 "__proto__") as [|N]; [discriminate|].
    symmetry in O. apply lastValue_Some in O.
    destruct O as (b & x & a & -> & Hx & _).
    apply (valueFor_parse context) in Hx.
    apply N. apply (H x _ (in_elt x b a) Hx).
Qed.

(** ** The [remove] operation on a key that is there *)

Section RemoveOperation.

Context {W : Type}.
Variable context : OperationContext W.
Variables (k : string) (currentLabels : list Label).

Local Abbreviation keptNames :=
  (map name (labelsToKeepOf context k currentLabels)).
Local Abbreviation replaceCall :=
  (SetLabels (owner context) (repo context) (issueNumber context) keptNames).
Local Abbreviation done :=
  {| success := true; value := None; state := None |}.

Lemma removeOperation_nothing (env : Env W) :
  existingLabelOf context k currentLabels = None ->
  removeOperation context k currentLabels env
  = (Returned {| success := false; value := None; state := None |}, env).
Proof. intros E. unfold removeOperation. cbv zeta. now rewrite E. Qed.

Lemma removeOperation_rejected (env : Env W) (existing : Label)
    (error : Thrown) (w1 : W) :
  existingLabelOf context k currentLabels = Some existing ->
  issues_setLabels (octokit context) (world env) (owner context) (repo context)
    (issueNumber context) keptNames = (Some error, w1) ->
  removeOperation context k currentLabels env
  = (Threw error, sent replaceCall w1 env).
Proof.
  intros E H. unfold removeOperation. cbv zeta. rewrite E.
  unfold bind, setLabels. now rewrite H.
Qed.

Lemma removeOperation_accepted (env : Env W) (existing : Label) (w1 : W) :
  existingLabelOf context k currentLabels = Some existing ->
  issues_setLabels (octokit context) (world env) (owner context) (repo context)
    (issueNumber context) keptNames = (None, w1) ->
  let env1 := sent replaceCall w1 env in
  if deleteUnusedLabels context then
    exists (isUsed : bool) (n : nat) (lines : list LogLine),
      1 <= n /\
      let env2 := extend env1 (listCalls context (name existing) n) lines in
      isLabelUsedByOthers context (name existing) env1
        = (Returned isUsed, env2) /\
      removeOperation context k currentLabels env
      = (Returned done,
         if isUsed then
           logged (Info ("Skipping deletion of label '" ++ name existing
                         ++ "' as it is used by other issues/PRs")) env2
         else
           let '(failure, w3) :=
             issues_deleteLabel (octokit context) (world env2)
               (owner context) (repo context) (name existing) in
           logged
             match failure with
             | None =>
                 Info ("Deleted label '" ++ name existing
                       ++ "' from repository")
             | Some (ErrorObject message) =>
                 Warning ("Failed to delete label '" ++ name existing
                          ++ "' from repository: " ++ message)
             | Some OtherValue =>
                 Warning ("Failed to delete label '" ++ name existing
                          ++ "' from repository: Unknown error")
             end
             (sent (DeleteLabel (owner context) (repo context)
                      (name existing)) w3 env2))
  else removeOperation context k currentLabels env = (Returned done, env1).
Proof.
  intros Ex H env1.
  assert (Start :
    forall A (rest : Async W A),
      bind (setLabels (octokit context) (owner context) (repo context)
              (issueNumber context) keptNames)
           (fun _ => rest) env
      = rest env1).
  { intros A rest. unfold bind, setLabels. now rewrite H. }
  unfold removeOperation. cbv zeta. rewrite Ex.
  destruct (deleteUnusedLabels context); [|now rewrite Start].
  destruct (isLabelUsedByOthers_returns context (name existing) env1)
    as (isUsed & n & lines & Hn & E).
  exists isUsed, n, lines. split; [exact Hn|]. cbv zeta. split; [exact E|].
  rewrite Start. unfold bind at 1. unfold bind at 1. rewrite E.
  destruct isUsed; cbn [negb]; [reflexivity|].
  unfold tryCatch, bind, deleteLabel.
  destruct (issues_deleteLabel _ _ _ _ _) as [[[message|]|] w3]; reflexivity.
Qed.

Lemma removeOperation_outcome (env : Env W) (existing : Label) :
  existingLabelOf context k currentLabels = Some existing ->
  fst (removeOperation context k currentLabels env)
  = match fst (issues_setLabels (octokit context) (world env) (owner context)
                 (repo context) (issueNumber context) keptNames) with
    | None => Returned done
    | Some error => Threw error
    end.
Proof.
  intros Ex.
  destruct (issues_setLabels _ _ _ _ _ _) as [[error|] w1] eqn:E.
  - now rewrite (removeOperation_rejected env existing error w1 Ex E).
  - pose proof (removeOperation_accepted env existing w1 Ex E) as R.
    cbv zeta in R. destruct (deleteUnusedLabels context).
    + destruct R as (isUsed & n & lines & _ & _ & ->). reflexivity.
    + now rewrite R.
Qed.

Lemma removeOperation_calls (env : Env W) (existing : Label) :
  existingLabelOf context k currentLabels = Some existing ->
  exists rest,
    calls (snd (removeOperation context k currentLabels env))
    = (calls env ++ replaceCall :: rest)%list /\
    filter isSetLabels rest = [].
Proof.
  intros Ex.
  destruct (issues_setLabels (octokit context) (world env) (owner context)
              (repo context) (issueNumber context) keptNames)
    as [[error|] w1] eqn:E.
  - rewrite (removeOperation_rejected env existing error w1 Ex E).
    now exists [].
  - pose proof (removeOperation_accepted env existing w1 Ex E) as R.
    cbv zeta in R. destruct (deleteUnusedLabels context).
    + destruct R as (isUsed & n & lines & _ & _ & ->). destruct isUsed.
      * exists (listCalls context (name existing) n). split.
        -- cbn [snd calls logged extend sent]. now rewrite <- app_assoc.
        -- apply no_setLabels_in_listCalls.
      * destruct (issues_deleteLabel _ _ _ _ _) as [failure w3].
        exists (listCalls context (name existing) n
                ++ [DeleteLabel (owner context) (repo context)
                      (name existing)])%list.
        split.
        -- cbn [snd calls logged extend sent]. now rewrite <- !app_assoc.
        -- now rewrite filter_app, no_setLabels_in_listCalls.
    + rewrite R. now exists [].
Qed.

End RemoveOperation.

Section KeptFacts.

Context {W : Type}.
Variable context : OperationContext W.

Lemma decodesTo_name (k : string) (l l' : Label) :
  name l = name l' -> decodesTo context k l = decodesTo context k l'.
Proof. intros E. unfold decodesTo. now rewrite E. Qed.

Lemma kept_names (k : string) (labels labels' : list Label) :
  map name labels = map name labels' ->
  map name (labelsToKeepOf context k labels)
  = map name (labelsToKeepOf context k labels').
Proof.
  rewrite !labelsToKeepOf_filter. revert labels'.
  induction labels as [|l labels IH]; intros [|l' labels'] E;
    try discriminate; [reflexivity|].
  simpl in E. injection E as En E. simpl.
  rewrite (decodesTo_name k l l' En).
  destruct (decodesTo context k l'); simpl; [auto|].
  now rewrite En, (IH labels' E).
Qed.

Lemma kept_kept (k : string) (labels : list Label) :
  labelsToKeepOf context k (labelsToKeepOf context k labels)
  = labelsToKeepOf context k labels.
Proof.
  rewrite !labelsToKeepOf_filter.
  induction labels as [|l labels IH]; [reflexivity|]. simpl.
  destruct (decodesTo context k l) eqn:D; simpl; [exact IH|].
  now rewrite D, IH.
Qed.

Lemma existing_names (k : string) (labels labels' : list Label) :
  map name labels = map name labels' ->
  option_map name (existingLabelOf context k labels)
  = option_map name (existingLabelOf context k labels').
Proof.
  unfold existingLabelOf. revert labels'.
  induction labels as [|l labels IH]; intros [|l' labels'] E;
    try discriminate; [reflexivity|].
  simpl in E. injection E as En E. simpl.
  rewrite (decodesTo_name k l l' En).
  destruct (decodesTo context k l'); simpl; [now rewrite En | auto].
Qed.

Lemma existing_kept (k : string) (labels : list Label) :
  existingLabelOf context k (labelsToKeepOf context k labels) = None.
Proof.
  apply find_absent. intros l Hl. rewrite labelsToKeepOf_filter in Hl.
  apply filter_In in Hl. now apply negb_true_iff.
Qed.

Lemma existing_absent_names (k : string) (labels labels' : list Label) :
  map name labels' = map name (labelsToKeepOf context k labels) ->
  existingLabelOf context k labels' = None.
Proof.
  intros E. pose proof (existing_names k _ _ E) as H.
  rewrite existing_kept in H.
  now destruct (existingLabelOf context k labels').
Qed.

End KeptFacts.

(** X7: when some label decodes to the key, every run of [remove(key)]
    sends exactly one list-replace call, before any other call, carrying
    the names of the current labels without every label decoding to the
    key, in their order; the operation returns success true when the
    service accepts that call, whatever the clean-up that follows does,
    and the failure propagates when the service rejects it. *)
Theorem removeOperation_replacement {W : Type} (context : OperationContext W)
    (k : string) (currentLabels : list Label) (env : Env W) (existing : Label) :
  In existing currentLabels ->
  decodesTo context k existing = true ->
  let keptNames :=
    map name
      (filter (fun label => negb (decodesTo context k label)) currentLabels) in
  let run := removeOperation context k currentLabels env in
  (exists rest,
      calls (snd run)
      = (calls env
         ++ SetLabels (owner context) (repo context) (issueNumber context)
              keptNames :: rest)%list /\
      filter isSetLabels rest = []) /\
  fst run
  = match fst (issues_setLabels (octokit context) (world env) (owner context)
                 (repo context) (issueNumber context) keptNames) with
    | None => Returned {| success := true; value := None; state := None |}
    | Some error => Threw error
    end.
Proof.
  intros Hin Hdec. cbv zeta.
  destruct (existingLabelOf context k currentLabels) as [first|] eqn:Ex.
  - rewrite <- labelsToKeepOf_filter. split.
    + exact (removeOperation_calls context k currentLabels env first Ex).
    + exact (removeOperation_outcome context k currentLabels env first Ex).
  - exfalso. unfold existingLabelOf in Ex.
    pose proof (find_none _ _ Ex existing Hin). congruence.
Qed.

Lemma removeOperation_replacement_witness :
  let context :=
    Fixtures.mockContext
      (Fixtures.mockOctokit [inr []] None
         (Some (ErrorObject "Label deletion failed"))) true in
  let run :=
    removeOperation context "step" Fixtures.mockLabels Fixtures.mockEnv in
  (exists rest,
      calls (snd run)
      = ([] ++ SetLabels "test-owner" "test-repo" (JsNumber.Int 123)
                 ["bug"; "state::status::pending"; "enhancement"] :: rest)%list
      /\ filter isSetLabels rest = []) /\
  fst run = Returned {| success := true; value := None; state := None |}.
Proof.
  exact (removeOperation_replacement
           (Fixtures.mockContext
              (Fixtures.mockOctokit [inr []] None
                 (Some (ErrorObject "Label deletion failed"))) true)
           "step" Fixtures.mockLabels Fixtures.mockEnv
           {| name := "state::step::1"; color := Some "a2eeef";
              description := Some (Some "State label") |}
           (or_intror (or_introl eq_refl)) eq_refl).
Defined.

(** X8: after a [remove(key)] no label decodes to the key, whatever the
    key, so that a second [remove(key)], on the labels the first one
    left, returns success false and does nothing: no call, no log line,
    the service untouched. *)
Theorem remove_twice {W : Type} (context : OperationContext W)
    (k : string) (labels labels' : list Label) (env : Env W) :
  map name labels' = map name (labelsToKeepOf context k labels) ->
  countKey context k labels' = 0 /\
  removeOperation context k labels' env
  = (Returned {| success := false; value := None; state := None |}, env).
Proof.
  intros E. split.
  - rewrite (countKey_names context k _ _ E). apply countKey_kept.
  - apply removeOperation_nothing. exact (existing_absent_names context k _ _ E).
Qed.

Lemma remove_twice_witness :
  let context := Fixtures.contextWith [] in
  let plain := fun n => {| name := n; color := None; description := None |} in
  let labels' := map plain ["bug"; "state::status::pending"; "enhancement"] in
  countKey context "step" labels' = 0 /\
  removeOperation context "step" labels' Fixtures.mockEnv
  = (Returned {| success := false; value := None; state := None |},
     Fixtures.mockEnv).
Proof.
  exact (remove_twice (Fixtures.contextWith []) "step" Fixtures.mockLabels
           (map (fun n => {| name := n; color := None; description := None |})
              ["bug"; "state::status::pending"; "enhancement"])
           Fixtures.mockEnv eq_refl).
Defined.

(** ** The clean-up and its guards *)

Section CleanUp.

Context {W : Type}.
Variable context : OperationContext W.

(** What a run of the usage check that returned tells about the pages. *)
Lemma isLabelUsedByOthers_inv (labelName : string) (env env' : Env W)
    (isUsed : bool) :
  isLabelUsedByOthers context labelName env = (Returned isUsed, env') ->
  exists n r,
    1 <= n /\
    (forall p, 1 <= p < n ->
       goesOn context (pageAt (pagesOf context labelName (world env)) p)) /\
    stopsWith context (pageAt (pagesOf context labelName (world env)) n) r /\
    match r with
    | Returned b =>
        isUsed = b /\ env' = extend env (listCalls context labelName n) []
    | Threw error =>
        isUsed = true /\
        env' = extend env (listCalls context labelName n)
                 [checkFailedWarning labelName error]
    | OutOfFuel => False
    end.
Proof.
  intros H.
  destruct (pagingLoop_ends context labelName
              (S (List.length (pagesOf context labelName (world env)))) 1 env)
    as (n & r & Hn & Hon & Hstop & _); try lia.
  exists n, r. split; [exact Hn|]. split; [exact Hon|]. split; [exact Hstop|].
  rewrite (isLabelUsedByOthers_stops context labelName env n r Hn Hon Hstop) in H.
  inversion Hstop; subst; injection H as <- <-; auto.
Qed.

End CleanUp.

(** X9: what the verdicts of the usage check mean.  It returns false only
    when it reached a page holding fewer than 100 issues, none of them
    another issue than the context's, every page before it being full and
    naming the context's issue only; it returns true only when the page it
    stopped at names another issue or its request failed, the failure
    being logged as a warning.  It asks for no page beyond that one. *)
Theorem isLabelUsedByOthers_verdicts {W : Type}
    (context : OperationContext W) (labelName : string) (env env' : Env W) :
  (isLabelUsedByOthers context labelName env = (Returned false, env') ->
   exists n issues,
     1 <= n /\
     (forall p, 1 <= p < n ->
        goesOn context (pageAt (pagesOf context labelName (world env)) p)) /\
     pageAt (pagesOf context labelName (world env)) n = inr issues /\
     (forall issue, In issue issues -> isOther context issue = false) /\
     List.length issues < 100 /\
     env' = extend env (listCalls context labelName n) []) /\
  (isLabelUsedByOthers context labelName env = (Returned true, env') ->
   exists n,
     1 <= n /\
     (forall p, 1 <= p < n ->
        goesOn context (pageAt (pagesOf context labelName (world env)) p)) /\
     ((exists issues issue,
          pageAt (pagesOf context labelName (world env)) n = inr issues /\
          In issue issues /\ isOther context issue = true /\
          env' = extend env (listCalls context labelName n) []) \/
      (exists error,
          pageAt (pagesOf context labelName (world env)) n = inl error /\
          env' = extend env (listCalls context labelName n)
                   [Warning ("Failed to check if label '" ++ labelName
                             ++ "' is used by other issues: "
                             ++ match error with
                                | ErrorObject message => message
                                | OtherValue => "Unknown error"
                                end)]))).
Proof.
  split; intros H;
    destruct (isLabelUsedByOthers_inv context labelName env env' _ H)
      as (n & r & Hn & Hon & Hstop & Hr).
  - inversion Hstop as [e He|issues Hex He|issues Hall Hshort He]; subst r;
      destruct Hr as [Hb ->]; try discriminate.
    exists n, issues. auto 7.
  - exists n. split; [exact Hn|]. split; [exact Hon|].
    inversion Hstop as [e He|issues Hex He|issues Hall Hshort He]; subst r;
      destruct Hr as [Hb ->]; try discriminate.
    + right. exists e. auto.
    + left. destruct Hex as (issue & Hi & Ni). exists issues, issue. auto.
Qed.

Lemma isLabelUsedByOthers_verdicts_witness :
  exists n issues,
    1 <= n /\
    (forall p, 1 <= p < n ->
       goesOn (Fixtures.contextWith [Fixtures.fullPage; inr [Fixtures.own]])
         (pageAt [Fixtures.fullPage; inr [Fixtures.own]] p)) /\
    pageAt [Fixtures.fullPage; inr [Fixtures.own]] n = inr issues /\
    (forall issue,
        In issue issues ->
        isOther (Fixtures.contextWith [Fixtures.fullPage; inr [Fixtures.own]])
          issue = false) /\
    List.length issues < 100 /\
    extend Fixtures.mockEnv
      (listCalls (Fixtures.contextWith [Fixtures.fullPage; inr [Fixtures.own]])
         "state::step::1" 2) []
    = extend Fixtures.mockEnv
        (listCalls (Fixtures.contextWith [Fixtures.fullPage; inr [Fixtures.own]])
           "state::step::1" n) [].
Proof.
  refine (proj1 (isLabelUsedByOthers_verdicts
                   (Fixtures.contextWith [Fixtures.fullPage; inr [Fixtures.own]])
                   "state::step::1" Fixtures.mockEnv _) _).
  vm_compute. reflexivity.
Defined.

(** X10: with deleteUnusedLabels disabled, a run of [set] and a run of
    [remove] on a key that is there consist of the list-replace call and
    nothing else: no listing request, no deletion and no log line; the
    service is left as that one call leaves it. *)
Theorem no_cleanup_when_disabled {W : Type} (context : OperationContext W)
    (k v : string) (currentLabels : list Label) (env : Env W) :
  deleteUnusedLabels context = false ->
  snd (setOperation context k v currentLabels env)
  = sent (SetLabels (owner context) (repo context) (issueNumber context)
            (newLabelsOf context k v currentLabels))
      (snd (issues_setLabels (octokit context) (world env) (owner context)
              (repo context) (issueNumber context)
              (newLabelsOf context k v currentLabels)))
      env /\
  (forall existing,
      existingLabelOf context k currentLabels = Some existing ->
      snd (removeOperation context k currentLabels env)
      = sent (SetLabels (owner context) (repo context) (issueNumber context)
                (map name (labelsToKeepOf context k currentLabels)))
          (snd (issues_setLabels (octokit context) (world env) (owner context)
                  (repo context) (issueNumber context)
                  (map name (labelsToKeepOf context k currentLabels))))
          env).
Proof.
  intros Hflag. split.
  - destruct (issues_setLabels _ _ _ _ _ (newLabelsOf context k v currentLabels))
      as [[error|] w1] eqn:E.
    + now rewrite (setOperation_rejected context k v currentLabels env error w1 E).
    + pose proof (setOperation_accepted context k v currentLabels env w1 E) as R.
      cbv zeta in R. rewrite Hflag in R.
      destruct (existingLabelOf context k currentLabels); now rewrite R.
  - intros existing Ex.
    destruct (issues_setLabels _ _ _ _ _
                (map name (labelsToKeepOf context k currentLabels)))
      as [[error|] w1] eqn:E.
    + now rewrite (removeOperation_rejected context k currentLabels env
                     existing error w1 Ex E).
    + pose proof (removeOperation_accepted context k currentLabels env
                    existing w1 Ex E) as R.
      cbv zeta in R. rewrite Hflag in R. now rewrite R.
Qed.

Lemma no_cleanup_when_disabled_witness :
  let context :=
    Fixtures.mockContext (Fixtures.mockOctokit [] None None) false in
  calls (snd (setOperation context "step" "2" Fixtures.mockLabels
                Fixtures.mockEnv))
  = [SetLabels "test-owner" "test-repo" (JsNumber.Int 123)
       ["bug"; "state::status::pending"; "enhancement"; "state::step::2"]] /\
  log (snd (setOperation context "step" "2" Fixtures.mockLabels
              Fixtures.mockEnv)) = [].
Proof.
  cbv zeta.
  rewrite (proj1 (no_cleanup_when_disabled
                    (Fixtures.mockContext (Fixtures.mockOctokit [] None None)
                       false)
                    "step" "2" Fixtures.mockLabels Fixtures.mockEnv eq_refl)).
  split; reflexivity.
Defined.

(** X11: [set] on a key that no label decodes to keeps every label: the
    list-replace call carries all the current names, in order, with the
    new name appended, and the run is that call and nothing else, also
    with deleteUnusedLabels enabled. *)
Theorem setOperation_new_key {W : Type} (context : OperationContext W)
    (k v : string) (currentLabels : list Label) (env : Env W) :
  (forall label parsed,
      In label currentLabels ->
      parseStateLabel (name label) (prefix context) (separator context)
        = Some parsed ->
      Labels.key parsed <> k) ->
  let newLabels :=
    (map name currentLabels
     ++ [createStateLabelName k (convertValue v)
           (prefix context) (separator context)])%list in
  snd (setOperation context k v currentLabels env)
  = sent (SetLabels (owner context) (repo context) (issueNumber context)
            newLabels)
      (snd (issues_setLabels (octokit context) (world env) (owner context)
              (repo context) (issueNumber context) newLabels))
      env.
Proof.
  intros H. cbv zeta.
  assert (D : forall label, In label currentLabels ->
                            decodesTo context k label = false).
  { intros label Hl. apply valueFor_decodesTo.
    exact (proj1 (not_decoding context k currentLabels) H label Hl). }
  assert (K : labelsToKeepOf context k currentLabels = currentLabels).
  { rewrite labelsToKeepOf_filter. clear H.
    induction currentLabels as [|l labels IH]; [reflexivity|]. simpl.
    rewrite (D l) by now left. simpl. f_equal. apply IH.
    intros label Hl. apply D. now right. }
  assert (N : newLabelsOf context k v currentLabels
              = (map name currentLabels
                 ++ [createStateLabelName k (convertValue v)
                       (prefix context) (separator context)])%list).
  { unfold newLabelsOf. now rewrite K. }
  rewrite <- N.
  assert (Ex : existingLabelOf context k currentLabels = None)
    by now apply find_absent.
  destruct (issues_setLabels _ _ _ _ _ (newLabelsOf context k v currentLabels))
    as [[error|] w1] eqn:E.
  - now rewrite (setOperation_rejected context k v currentLabels env error w1 E).
  - pose proof (setOperation_accepted context k v currentLabels env w1 E) as R.
    cbv zeta in R. rewrite Ex in R. now rewrite R.
Qed.

Lemma setOperation_new_key_witness :
  calls (snd (setOperation (Fixtures.contextWith [inr []]) "priority" "high"
                Fixtures.mockLabels Fixtures.mockEnv))
  = [SetLabels "test-owner" "test-repo" (JsNumber.Int 123)
       ["bug"; "state::step::1"; "state::status::pending"; "enhancement";
        "state::priority::high"]].
Proof.
  rewrite (setOperation_new_key (Fixtures.contextWith [inr []])
             "priority" "high" Fixtures.mockLabels Fixtures.mockEnv).
  - reflexivity.
  - intros label parsed Hl. simpl in Hl.
    destruct Hl as [<-|[<-|[<-|[<-|[]]]]]; vm_compute;
      intros P; inversion P; discriminate.
Defined.

Lemma no_deleteLabel_in_listCalls {W : Type} (context : OperationContext W)
    (labelName : string) (n : nat) (o r l : string) :
  ~ In (DeleteLabel o r l) (listCalls context labelName n).
Proof.
  unfold listCalls, listCallsFrom. intros H. apply in_map_iff in H.
  destruct H as (p & E & _). discriminate.
Qed.

(** X12: a label is deleted from the repository only as the last call of
    a run, after an accepted list-replace call, with deleteUnusedLabels
    enabled, and only when the usage check, run after that call, returned
    false; the label deleted is the existing label, the first of the
    current labels that decodes to the key, and at most one deletion is
    sent.  This holds for [set] and for [remove]. *)
Theorem deleteLabel_guarded {W : Type} (context : OperationContext W)
    (k v : string) (currentLabels : list Label) (env : Env W) :
  let guarded := fun (replacement : list string) (run : Env W) =>
    let replaceCall :=
      SetLabels (owner context) (repo context) (issueNumber context)
        replacement in
    exists sentCalls,
      calls run = (calls env ++ sentCalls)%list /\
      ((forall o r labelName, ~ In (DeleteLabel o r labelName) sentCalls) \/
       (exists existing w1 env2 n,
           deleteUnusedLabels context = true /\
           existingLabelOf context k currentLabels = Some existing /\
           issues_setLabels (octokit context) (world env) (owner context)
             (repo context) (issueNumber context) replacement = (None, w1) /\
           isLabelUsedByOthers context (name existing)
             (sent replaceCall w1 env) = (Returned false, env2) /\
           sentCalls
           = (replaceCall :: listCalls context (name existing) n
              ++ [DeleteLabel (owner context) (repo context)
                    (name existing)])%list)) in
  guarded (newLabelsOf context k v currentLabels)
    (snd (setOperation context k v currentLabels env)) /\
  guarded (map name (labelsToKeepOf context k currentLabels))
    (snd (removeOperation context k currentLabels env)).
Proof.
  cbv zeta. split.
  - destruct (issues_setLabels _ _ _ _ _ (newLabelsOf context k v currentLabels))
      as [[error|] w1] eqn:E.
    + rewrite (setOperation_rejected context k v currentLabels env error w1 E).
      eexists. split; [reflexivity|]. left.
      intros o r l [H|[]]. discriminate.
    + pose proof (setOperation_accepted context k v currentLabels env w1 E) as R.
      cbv zeta in R.
      destruct (existingLabelOf context k currentLabels) as [existing|] eqn:Ex.
      * destruct (deleteUnusedLabels context) eqn:Hflag.
        -- destruct R as (isUsed & n & lines & _ & Hcheck & ->).
           destruct isUsed.
           ++ exists (SetLabels (owner context) (repo context)
                        (issueNumber context)
                        (newLabelsOf context k v currentLabels)
                      :: listCalls context (name existing) n).
              split.
              ** cbn [snd calls logged extend sent]. now rewrite <- app_assoc.
              ** left. intros o r l [H|H]; [discriminate|].
                 now apply no_deleteLabel_in_listCalls in H.
           ++ destruct (issues_deleteLabel _ _ _ _ _) as [failure w3] eqn:D.
              eexists. split.
              ** cbn [snd calls logged extend sent].
                 rewrite <- !app_assoc. reflexivity.
              ** right. exists existing, w1. eexists. exists n.
                 repeat split; try eassumption; reflexivity.
        -- rewrite R. eexists. split; [reflexivity|]. left.
           intros o r l [H|[]]. discriminate.
      * rewrite R. eexists. split; [reflexivity|]. left.
        intros o r l [H|[]]. discriminate.
  - destruct (existingLabelOf context k currentLabels) as [existing|] eqn:Ex.
    + destruct (issues_setLabels _ _ _ _ _
                  (map name (labelsToKeepOf context k currentLabels)))
        as [[error|] w1] eqn:E.
      * rewrite (removeOperation_rejected context k currentLabels env
                   existing error w1 Ex E).
        eexists. split; [reflexivity|]. left.
        intros o r l [H|[]]. discriminate.
      * pose proof (removeOperation_accepted context k currentLabels env
                      existing w1 Ex E) as R.
        cbv zeta in R. destruct (deleteUnusedLabels context) eqn:Hflag.
        -- destruct R as (isUsed & n & lines & _ & Hcheck & ->).
           destruct isUsed.
           ++ exists (SetLabels (owner context) (repo context)
                        (issueNumber context)
                        (map name (labelsToKeepOf context k currentLabels))
                      :: listCalls context (name existing) n).
              split.
              ** cbn [snd calls logged extend sent]. now rewrite <- app_assoc.
              ** left. intros o r l [H|H]; [discriminate|].
                 now apply no_deleteLabel_in_listCalls in H.
           ++ destruct (issues_deleteLabel _ _ _ _ _) as [failure w3] eqn:D.
              eexists. split.
              ** cbn [snd calls logged extend sent].
                 rewrite <- !app_assoc. reflexivity.
              ** right. exists existing, w1. eexists. exists n.
                 repeat split; try eassumption; reflexivity.
        -- rewrite R. eexists. split; [reflexivity|]. left.
           intros o r l [H|[]]. discriminate.
    + rewrite (removeOperation_nothing context k currentLabels env Ex).
      exists []. split; [now rewrite app_nil_r|]. left. intros o r l [].
Qed.

(** X13: [set] after [set].  When the first occurrence of the separator
    in the key followed by the separator is the one at the end of the key,
    a [set(key, v2)] on the labels that a [set(key, v1)] wrote builds the
    replacement list that [set(key, v2)] builds on the original labels:
    the last value wins and the other labels stay as they were; and the
    existing label it hands to the clean-up is the label the first call
    wrote. *)
Theorem set_after_set {W : Type} (context : OperationContext W)
    (k v1 v2 : string) (labels labels1 : list Label) :
  indexOf (k ++ separator context) (separator context)
    = Some (String.length k) ->
  map name labels1 = newLabelsOf context k v1 labels ->
  newLabelsOf context k v2 labels1 = newLabelsOf context k v2 labels /\
  option_map name (existingLabelOf context k labels1)
  = Some (createStateLabelName k (convertValue v1)
            (prefix context) (separator context)).
Proof.
  intros I E.
  destruct (readback_set context k v1 labels labels1 E)
    as (kept & new & -> & Ek & En).
  pose proof (decodesTo_new context k v1 new I En) as Dn.
  assert (Dk : forall label, In label kept -> decodesTo context k label = false).
  { intros label Hl.
    pose proof (existing_absent_names context k labels kept Ek) as A.
    exact (find_none _ _ A label Hl). }
  split.
  - unfold newLabelsOf. f_equal.
    rewrite !labelsToKeepOf_filter, filter_app. simpl. rewrite Dn. simpl.
    rewrite app_nil_r, <- !labelsToKeepOf_filter.
    now rewrite (kept_names context k _ _ Ek), kept_kept.
  - unfold existingLabelOf.
    rewrite (find_first (decodesTo context k) kept new [] Dk Dn). simpl.
    now rewrite En.
Qed.

Lemma set_after_set_witness :
  let context := Fixtures.contextWith [] in
  let plain := fun n => {| name := n; color := None; description := None |} in
  let labels1 :=
    map plain ["bug"; "state::status::pending"; "enhancement";
               "state::step::2"] in
  newLabelsOf context "step" "3" labels1
  = newLabelsOf context "step" "3" Fixtures.mockLabels /\
  option_map name (existingLabelOf context "step" labels1)
  = Some (createStateLabelName "step" (convertValue "2") "state" "::").
Proof.
  exact (set_after_set (Fixtures.contextWith []) "step" "2" "3"
           Fixtures.mockLabels
           (map (fun n => {| name := n; color := None; description := None |})
              ["bug"; "state::status::pending"; "enhancement";
               "state::step::2"])
           eq_refl eq_refl).
Defined.

(** ** src/main.ts *)

Import Main.
Import Runners.

Section IssueNumber.

(** [parseInt] on a string that begins with neither white space nor a
    sign reads its leading digits only. *)
Lemma parseInt10_plain (s1 s2 : string) :
  (forall s, s = s1 \/ s = s2 ->
     JsNumber.trimStart s = s /\
     match s with String "-" _ => true | _ => false end = false /\
     match s with
     | String "-" rest | String "+" rest => rest
     | _ => s
     end = s) ->
  JsNumber.digitsPrefix s1 = JsNumber.digitsPrefix s2 ->
  JsNumber.parseInt10 s1 = JsNumber.parseInt10 s2.
Proof.
  intros H D.
  destruct (H s1 (or_introl eq_refl)) as (T1 & N1 & P1).
  destruct (H s2 (or_intror eq_refl)) as (T2 & N2 & P2).
  unfold JsNumber.parseInt10. cbv zeta.
  rewrite T1, T2, N1, N2, P1, P2, D. reflexivity.
Qed.

Lemma digit_led (c : ascii) (x : string) :
  isDigit c = true ->
  JsNumber.trimStart (String c x) = String c x /\
  match String c x with String "-" _ => true | _ => false end = false /\
  match String c x with
  | String "-" rest | String "+" rest => rest
  | _ => String c x
  end = String c x.
Proof.
  intros D.
  destruct c as [[] [] [] [] [] [] [] []]; try discriminate D;
    repeat split.
Qed.

Lemma digit_plain (c : ascii) (x y : string) :
  isDigit c = true ->
  JsNumber.digitsPrefix (String c x) = JsNumber.digitsPrefix (String c y) ->
  JsNumber.parseInt10 (String c x) = JsNumber.parseInt10 (String c y).
Proof.
  intros D H. apply parseInt10_plain; [|exact H].
  intros s [->| ->]; now apply digit_led.
Qed.

Lemma digitsPrefix_append (ds rest : string) :
  allDigits ds = true -> noLeadingDigit rest = true ->
  JsNumber.digitsPrefix (ds ++ rest) = JsNumber.digitsPrefix ds.
Proof.
  intros D R. induction ds as [|c ds IH]; simpl.
  - destruct rest as [|c rest]; [reflexivity|]. simpl in *.
    unfold isDigit in R. now destruct (JsNumber.digitValue c).
  - simpl in D. apply andb_true_iff in D. destruct D as [Dc D].
    unfold isDigit in Dc. destruct (JsNumber.digitValue c); [|discriminate].
    now rewrite IH.
Qed.

Lemma parseInt10_digits (c : ascii) (ds : string) :
  isDigit c = true -> JsNumber.isNaN (JsNumber.parseInt10 (String c ds)) = false.
Proof.
  intros D. destruct (digit_led c ds D) as (T & N & P).
  unfold JsNumber.parseInt10. cbv zeta. rewrite T, N, P.
  cbn [JsNumber.digitsPrefix]. unfold isDigit in D.
  destruct (JsNumber.digitValue c) as [d|]; [|discriminate].
  destruct (_ =? 0)%Z; [reflexivity|].
  now destruct (JsNumber.roundToDouble _).
Qed.

Lemma mathIntOf_digits (ds : string) :
  allDigits ds = true ->
  JsNumber.mathIntOf (JsNumber.digitsPrefix ds) = digitsValue ds.
Proof.
  unfold JsNumber.mathIntOf, digitsValue. generalize 0%Z as acc.
  induction ds as [|c ds IH]; intros acc D; [reflexivity|].
  simpl in D. apply andb_true_iff in D. destruct D as [Dc D].
  cbn [JsNumber.digitsPrefix list_ascii_of_string].
  unfold isDigit, JsNumber.digitValue in Dc |- *.
  destruct (_ && _)%bool; [|discriminate].
  cbn [fold_left]. now apply IH.
Qed.

(** Below 2^53 [parseInt] gives the very number the digits denote. *)
Lemma parseInt10_value (c : ascii) (ds : string) :
  isDigit c = true -> allDigits ds = true ->
  (digitsValue (String c ds) < 2 ^ 53)%Z ->
  JsNumber.parseInt10 (String c ds)
  = JsNumber.Int (digitsValue (String c ds)).
Proof.
  intros Dc D B. destruct (digit_led c ds Dc) as (T & N & P).
  assert (A : allDigits (String c ds) = true) by (simpl; now rewrite Dc).
  pose proof (mathIntOf_digits (String c ds) A) as M.
  unfold JsNumber.parseInt10. cbv zeta. rewrite T, N, P.
  destruct (JsNumber.digitsPrefix (String c ds)) as [|d digits] eqn:E.
  - cbn [JsNumber.digitsPrefix] in E. unfold isDigit in Dc.
    destruct (JsNumber.digitValue c); discriminate.
  - rewrite M. destruct (Z.eqb_spec (digitsValue (String c ds)) 0) as [Z0|NZ].
    + now rewrite Z0.
    + unfold JsNumber.roundToDouble.
      now rewrite (proj2 (Z.ltb_lt _ _) B).
Qed.

End IssueNumber.

(** X14: an issue-number input that begins with decimal digits is never
    rejected, whatever text follows the digits (as in ["12abc"] or
    ["12.5"]) and whatever the event payload holds; and when the digits
    denote a number below 2^53, the input resolves to exactly that
    number. *)
Theorem resolveIssueNumber_leading_digits (inputs : Inputs) (payload : Payload)
    (ds rest : string) :
  ds <> "" -> allDigits ds = true -> noLeadingDigit rest = true ->
  issue_number_input inputs = ds ++ rest ->
  (exists issueNumber,
      resolveIssueNumber inputs payload = inr issueNumber /\
      JsNumber.isNaN issueNumber = false) /\
  ((digitsValue ds < 2 ^ 53)%Z ->
   resolveIssueNumber inputs payload = inr (JsNumber.Int (digitsValue ds))).
Proof.
  intros Hne Hds Hrest Hin.
  destruct ds as [|c ds]; [contradiction|].
  pose proof Hds as Hall.
  simpl in Hds. apply andb_true_iff in Hds. destruct Hds as [Hc Hds].
  pose proof (parseInt10_digits c ds Hc) as NaN.
  assert (E : JsNumber.parseInt10 (String c (ds ++ rest))
              = JsNumber.parseInt10 (String c ds)).
  { apply digit_plain; [exact Hc|].
    exact (digitsPrefix_append (String c ds) rest Hall Hrest). }
  assert (R : resolveIssueNumber inputs payload
              = inr (JsNumber.parseInt10 (String c ds))).
  { unfold resolveIssueNumber. cbv zeta. rewrite Hin. cbn [append truthy].
    now rewrite E, NaN. }
  split.
  - exists (JsNumber.parseInt10 (String c ds)). now split.
  - intros B. now rewrite R, (parseInt10_value c ds Hc Hds B).
Qed.

Lemma resolveIssueNumber_leading_digits_witness :
  resolveIssueNumber
    {| operation_input := inr "get"; issue_number_input := "12abc";
       github_token_input := "t"; separator_input := "::";
       repository_input := "o/r"; prefix_input := "state";
       key_input := "k"; value_input := "";
       delete_unused_labels_input := inr false |}
    {| issue_number := Some 7%Z; pull_request_number := None |}
  = inr (JsNumber.Int 12).
Proof.
  refine (proj2 (resolveIssueNumber_leading_digits
                   {| operation_input := inr "get";
                      issue_number_input := "12abc";
                      github_token_input := "t"; separator_input := "::";
                      repository_input := "o/r"; prefix_input := "state";
                      key_input := "k"; value_input := "";
                      delete_unused_labels_input := inr false |}
                   {| issue_number := Some 7%Z; pull_request_number := None |}
                   "12" "abc" _ eq_refl eq_refl eq_refl) _).
  - discriminate.
  - reflexivity.
Defined.

(** Beyond 2^53 the digits are rounded to a double, and beyond the
    largest double the issue number is infinite. *)
Example resolveIssueNumber_long_digits :
  let resolve := fun input =>
    resolveIssueNumber
      {| operation_input := inr "get"; issue_number_input := input;
         github_token_input := "t"; separator_input := "::";
         repository_input := "o/r"; prefix_input := "state";
         key_input := "k"; value_input := "";
         delete_unused_labels_input := inr false |}
      {| issue_number := None; pull_request_number := None |} in
  resolve "9007199254740993abc" = inr (JsNumber.Int 9007199254740992) /\
  resolve MainFixtures.longIssueNumber = inr (JsNumber.Infinity false).
Proof. vm_compute. split; reflexivity. Qed.

(** ** [run] *)

Section RunFacts.

Context {W : Type}.
Variable inputs : Inputs.
Variable payload : Payload.
Variable getOctokit : string -> Client W.

Lemma truthy_true (s : string) : s <> "" -> truthy s = true.
Proof. now destruct s. Qed.

Lemma truthy_false (s : string) : truthy s = false -> s = "".
Proof. now destruct s. Qed.

Lemma includes_In (l : list string) (s : string) :
  includes l s = true <-> In s l.
Proof.
  unfold includes. rewrite existsb_exists. split.
  - intros (x & Hx & E). apply String.eqb_eq in E. now subst.
  - intros H. exists s. split; [exact H | apply String.eqb_refl].
Qed.

(** The run after the labels were read: the operation and the outputs. *)
Let dispatch (operation : string) (number : JsNumber.Number)
    (deleteUnused : bool)
    (owner repo : string) (currentLabels : list Label) : Action W unit :=
  (let operationContext :=
     contextOf inputs getOctokit number deleteUnused owner repo in
   if String.eqb operation "get" then
     output <-- await (getOperation operationContext (key_input inputs)
                         currentLabels) ;;
     match output with
     | Output output =>
         match Operations.value output with
         | Some (Some v) => core_setOutput "value" (OutString v)
         | Some None => core_setOutput "value" OutNull
         | None => done tt
         end ;;;
         core_setOutput "success" (OutBoolean (success output))
     | InheritedOutput inherited =>
         core_setOutput "value" (OutInherited inherited) ;;;
         core_setOutput "success" (OutBoolean true)
     end
   else if String.eqb operation "get-all" then
     output <-- await (getAllOperation operationContext currentLabels) ;;
     match Operations.state output with
     | Some text => core_setOutput "state" (OutString text)
     | None => done tt
     end ;;;
     core_setOutput "success" (OutBoolean (success output))
   else if String.eqb operation "set" then
     output <-- await (setOperation operationContext (key_input inputs)
                         (value_input inputs) currentLabels) ;;
     core_setOutput "success" (OutBoolean (success output))
   else if String.eqb operation "remove" then
     output <-- await (removeOperation operationContext (key_input inputs)
                         currentLabels) ;;
     core_setOutput "success" (OutBoolean (success output))
   else done tt)%action.

(** The run after the checks: the lines logged, the labels read, the
    operation. *)
Let proceed (operation : string) (issueNumber : JsNumber.Number)
    (deleteUnused : bool) (owner repo : string) : Action W unit :=
  (await (core_info ("Performing operation: " ++ operation)) ;;;
   await (core_info ("Issue number: " ++ JsNumber.toString issueNumber)) ;;;
   await (core_info ("Repository: " ++ owner ++ "/" ++ repo)) ;;;
   await (core_info ("Prefix: " ++ prefix_input inputs ++ ", Separator: "
                     ++ separator_input inputs)) ;;;
   currentLabels <-- listLabelsOnIssue (getOctokit (github_token_input inputs))
                       owner repo issueNumber ;;
   await (core_info ("Current state: "
                     ++ Json.stringify
                          (extractStateLabels currentLabels
                             (prefix_input inputs) (separator_input inputs)))) ;;;
   dispatch operation issueNumber deleteUnused owner repo currentLabels)%action.

(** When the inputs are accepted, the run proceeds. *)
Lemma runBody_accepted (s : RunState W) operation issueNumber deleteUnused
    owner repo :
  accepted inputs payload operation issueNumber deleteUnused owner repo ->
  runBody inputs payload getOctokit s
  = proceed operation issueNumber deleteUnused owner repo s.
Proof.
  intros (Hop & Hres & Hflag & (more & Hsplit) & Ho & Hr & Hin & Hk & Hv & Ht).
  unfold runBody. rewrite Hop, Hres, Hflag.
  unfold andThen at 1 2 3. cbn [result done throw]. cbv zeta.
  rewrite Hsplit. cbn [nth].
  rewrite (truthy_true owner Ho), (truthy_true repo Hr),
    (truthy_true _ Ht). cbn [negb orb].
  rewrite (proj2 (includes_In operations operation) Hin). cbn [negb].
  assert (K : includes ["set"; "remove"; "get"] operation
              && negb (truthy (key_input inputs)) = false).
  { destruct (String.eqb_spec operation "get-all") as [->|N];
      [reflexivity|].
    rewrite (truthy_true _ (Hk N)). apply andb_false_r. }
  assert (V : (operation =? "set") && negb (truthy (value_input inputs))
              = false).
  { destruct (String.eqb_spec operation "set") as [E|N]; [|reflexivity].
    now rewrite (truthy_true _ (Hv E)). }
  rewrite K, V. reflexivity.
Qed.

(** The checks of [run]: either one of them throws, nothing having been
    sent or logged, or the inputs are accepted and the run proceeds. *)
Lemma runBody_checks (s : RunState W) :
  (exists error, runBody inputs payload getOctokit s = (Failed error, s)) \/
  (exists operation issueNumber deleteUnused owner repo,
      accepted inputs payload operation issueNumber deleteUnused owner repo /\
      runBody inputs payload getOctokit s
      = proceed operation issueNumber deleteUnused owner repo s).
Proof.
  destruct (operation_input inputs) as [e|operation] eqn:Hop;
    [left; exists e; unfold runBody; now rewrite Hop|].
  destruct (resolveIssueNumber inputs payload) as [e|issueNumber] eqn:Hres;
    [left; exists e; unfold runBody; now rewrite Hop, Hres|].
  destruct (delete_unused_labels_input inputs) as [e|deleteUnused] eqn:Hflag;
    [left; exists e; unfold runBody; now rewrite Hop, Hres, Hflag|].
  assert (Body :
    runBody inputs payload getOctokit s
    = (let parts := split "/" (repository_input inputs) in
       let owner := nth 0 parts "" in
       let repo := nth 1 parts "" in
       if negb (truthy owner) || negb (truthy repo) then
         throw (ErrorObject "Invalid repository format. Expected: owner/repo")
       else if negb (includes operations operation) then
         throw (ErrorObject ("Invalid operation: " ++ operation
                             ++ ". Must be: set, remove, get, get-all"))
       else if includes ["set"; "remove"; "get"] operation
               && negb (truthy (key_input inputs)) then
         throw (ErrorObject ("Key is required for operation: " ++ operation))
       else if String.eqb operation "set"
               && negb (truthy (value_input inputs)) then
         throw (ErrorObject ("Value is required for operation: " ++ operation))
       else if negb (truthy (github_token_input inputs)) then
         throw (ErrorObject "GitHub token is required")
       else proceed operation issueNumber deleteUnused
              (nth 0 parts "") (nth 1 parts "")) s).
  { unfold runBody. now rewrite Hop, Hres, Hflag. }
  cbv zeta in Body.
  destruct (negb (truthy (nth 0 (split "/" (repository_input inputs)) ""))
            || negb (truthy (nth 1 (split "/" (repository_input inputs)) "")))
    eqn:Crepo'; [left; eexists; exact Body|].
  destruct (negb (includes operations operation)) eqn:Cop;
    [left; eexists; exact Body|].
  destruct (includes ["set"; "remove"; "get"] operation
            && negb (truthy (key_input inputs))) eqn:Ckey;
    [left; eexists; exact Body|].
  destruct ((operation =? "set") && negb (truthy (value_input inputs)))
    eqn:Cvalue; [left; eexists; exact Body|].
  destruct (negb (truthy (github_token_input inputs))) eqn:Ctoken;
    [left; eexists; exact Body|].
  cbv iota in Body.
  right.
  exists operation, issueNumber, deleteUnused,
    (nth 0 (split "/" (repository_input inputs)) ""),
    (nth 1 (split "/" (repository_input inputs)) "").
  split; [|exact Body].
  apply orb_false_iff in Crepo'. destruct Crepo' as [To Tr].
  apply negb_false_iff in To, Tr, Cop, Ctoken.
  apply includes_In in Cop.
  unfold accepted. repeat split; try reflexivity; try assumption.
  - destruct (split "/" (repository_input inputs)) as [|o [|r more]];
      try discriminate. now exists more.
  - intros E. now rewrite E in To.
  - intros E. now rewrite E in Tr.
  - intros Hget Hk. rewrite Hk in Ckey. cbn [truthy negb] in Ckey.
    rewrite andb_true_r in Ckey.
    simpl in Cop. destruct Cop as [<-|[<-|[<-|[<-|[]]]]]; try discriminate.
    now apply Hget.
  - intros -> Hv. rewrite Hv in Cvalue. discriminate.
  - intros Ht. rewrite Ht in Ctoken. discriminate.
Qed.

(** The state once the four lines are logged. *)
Let started (s : RunState W) (operation : string)
    (issueNumber : JsNumber.Number) (owner repo : string) : RunState W :=
  {| env :=
       {| world := world (env s);
          calls := calls (env s);
          log := (log (env s)
                  ++ preamble inputs operation issueNumber owner repo)%list |};
     labelReads := labelReads s;
     outputs := outputs s;
     failures := failures s |}.

Lemma proceed_run (s : RunState W) operation issueNumber deleteUnused
    owner repo :
  proceed operation issueNumber deleteUnused owner repo s
  = match issues_listLabelsOnIssue (getOctokit (github_token_input inputs))
            (world (env s)) owner repo issueNumber with
    | inl error =>
        (Failed error,
         {| env := env (started s operation issueNumber owner repo);
            labelReads := (labelReads s ++ [(owner, repo, issueNumber)])%list;
            outputs := outputs s;
            failures := failures s |})
    | inr currentLabels =>
        dispatch operation issueNumber deleteUnused owner repo currentLabels
          (afterRead inputs s operation issueNumber owner repo currentLabels)
    end.
Proof.
  unfold proceed, started, afterRead, preamble.
  unfold andThen at 1 2 3 4 5.
  unfold await at 1 2 3 4, core_info, logged, listLabelsOnIssue.
  cbn [env labelReads outputs failures world calls log].
  rewrite <- !app_assoc. cbn [app].
  destruct (issues_listLabelsOnIssue _ _ _ _ _) as [error|currentLabels];
    [reflexivity|].
  unfold andThen at 1. unfold await at 1.
  cbn [env labelReads outputs failures world calls log].
  rewrite <- !app_assoc. reflexivity.
Qed.

(** [run] is its body, a failure being reported. *)
Lemma run_of_body (s : RunState W) :
  run inputs payload getOctokit s
  = match runBody inputs payload getOctokit s with
    | (Failed error, s') =>
        (Done tt,
         reported s' (env s') [("success", OutBoolean false)]
           [failureMessage error])
    | r => r
    end.
Proof.
  unfold run. destruct (runBody inputs payload getOctokit s) as [[u|error|] s'];
    try reflexivity.
  now destruct error.
Qed.

(** Awaiting an operation and setting the success output. *)
Lemma await_success (m : Async W OperationOutput) (s : RunState W) :
  (output <-- await m ;;
   core_setOutput "success" (OutBoolean (success output)))%action s
  = match m (env s) with
    | (Returned output, e) =>
        (Done tt,
         {| env := e; labelReads := labelReads s;
            outputs := (outputs s
                        ++ [("success", OutBoolean (success output))])%list;
            failures := failures s |})
    | (Threw error, e) =>
        (Failed error,
         {| env := e; labelReads := labelReads s; outputs := outputs s;
            failures := failures s |})
    | (OutOfFuel, e) =>
        (Beyond,
         {| env := e; labelReads := labelReads s; outputs := outputs s;
            failures := failures s |})
    end.
Proof.
  unfold andThen, await. now destruct (m (env s)) as [[output|error|] e].
Qed.

Lemma dispatch_set (number : JsNumber.Number) (deleteUnused : bool)
    (owner repo : string)
    (currentLabels : list Label) (s : RunState W) :
  dispatch "set" number deleteUnused owner repo currentLabels s
  = match setOperation
            (contextOf inputs getOctokit number deleteUnused owner repo)
            (key_input inputs) (value_input inputs) currentLabels (env s) with
    | (Returned output, e) =>
        (Done tt,
         {| env := e; labelReads := labelReads s;
            outputs := (outputs s
                        ++ [("success", OutBoolean (success output))])%list;
            failures := failures s |})
    | (Threw error, e) =>
        (Failed error,
         {| env := e; labelReads := labelReads s; outputs := outputs s;
            failures := failures s |})
    | (OutOfFuel, e) =>
        (Beyond,
         {| env := e; labelReads := labelReads s; outputs := outputs s;
            failures := failures s |})
    end.
Proof. unfold dispatch. cbv zeta. cbn [String.eqb Ascii.eqb Bool.eqb]. apply await_success. Qed.

Lemma dispatch_remove (number : JsNumber.Number) (deleteUnused : bool)
    (owner repo : string)
    (currentLabels : list Label) (s : RunState W) :
  dispatch "remove" number deleteUnused owner repo currentLabels s
  = match removeOperation
            (contextOf inputs getOctokit number deleteUnused owner repo)
            (key_input inputs) currentLabels (env s) with
    | (Returned output, e) =>
        (Done tt,
         {| env := e; labelReads := labelReads s;
            outputs := (outputs s
                        ++ [("success", OutBoolean (success output))])%list;
            failures := failures s |})
    | (Threw error, e) =>
        (Failed error,
         {| env := e; labelReads := labelReads s; outputs := outputs s;
            failures := failures s |})
    | (OutOfFuel, e) =>
        (Beyond,
         {| env := e; labelReads := labelReads s; outputs := outputs s;
            failures := failures s |})
    end.
Proof. unfold dispatch. cbv zeta. cbn [String.eqb Ascii.eqb Bool.eqb]. apply await_success. Qed.

Lemma dispatch_get (number : JsNumber.Number) (deleteUnused : bool)
    (owner repo : string)
    (currentLabels : list Label) (s : RunState W) :
  dispatch "get" number deleteUnused owner repo currentLabels s
  = (Done tt,
     {| env := env s; labelReads := labelReads s;
        outputs :=
          (outputs s
           ++ match (if String.eqb (key_input inputs) "__proto__" then None
                     else lastValue (prefix_input inputs)
                            (separator_input inputs) (key_input inputs)
                            currentLabels) with
              | Some v =>
                  [("value", OutString v); ("success", OutBoolean true)]
              | None =>
                  if JsObject.inPrototype (key_input inputs) then
                    [("value", OutInherited (key_input inputs));
                     ("success", OutBoolean true)]
                  else [("value", OutNull); ("success", OutBoolean false)]
              end)%list;
        failures := failures s |}).
Proof.
  unfold dispatch. cbv zeta. cbn [String.eqb Ascii.eqb Bool.eqb].
  unfold andThen at 1. unfold await. rewrite getOperation_run.
  cbn [prefix separator contextOf].
  destruct (if (key_input inputs =? "__proto__") then None else _) as [v|].
  - unfold found, andThen, core_setOutput. cbn. now rewrite <- app_assoc.
  - unfold nothingFound. destruct (JsObject.inPrototype (key_input inputs));
      unfold andThen, core_setOutput; cbn; now rewrite <- app_assoc.
Qed.

Lemma dispatch_getAll (number : JsNumber.Number) (deleteUnused : bool)
    (owner repo : string)
    (currentLabels : list Label) (s : RunState W) :
  dispatch "get-all" number deleteUnused owner repo currentLabels s
  = (Done tt,
     {| env := env s; labelReads := labelReads s;
        outputs :=
          (outputs s
           ++ [("state",
                OutString
                  (Json.stringify
                     (extractStateLabels currentLabels (prefix_input inputs)
                        (separator_input inputs))));
               ("success", OutBoolean true)])%list;
        failures := failures s |}).
Proof.
  unfold dispatch. cbv zeta. cbn [String.eqb Ascii.eqb Bool.eqb].
  unfold andThen, await, getAllOperation, ret, core_setOutput. cbn.
  now rewrite <- app_assoc.
Qed.

(** The run on accepted inputs. *)
Lemma run_accepted (s : RunState W) operation issueNumber deleteUnused
    owner repo :
  accepted inputs payload operation issueNumber deleteUnused owner repo ->
  run inputs payload getOctokit s
  = match issues_listLabelsOnIssue (getOctokit (github_token_input inputs))
            (world (env s)) owner repo issueNumber with
    | inl error =>
        (Done tt,
         {| env := env (started s operation issueNumber owner repo);
            labelReads := (labelReads s ++ [(owner, repo, issueNumber)])%list;
            outputs := (outputs s ++ [("success", OutBoolean false)])%list;
            failures := (failures s ++ [failureMessage error])%list |})
    | inr currentLabels =>
        match dispatch operation issueNumber deleteUnused owner repo
                currentLabels
                (afterRead inputs s operation issueNumber owner repo
                   currentLabels) with
        | (Failed error, s') =>
            (Done tt,
             reported s' (env s') [("success", OutBoolean false)]
               [failureMessage error])
        | r => r
        end
    end.
Proof.
  intros A. rewrite run_of_body, (runBody_accepted s _ _ _ _ _ A), proceed_run.
  now destruct (issues_listLabelsOnIssue _ _ _ _ _).
Qed.

Lemma setOperation_ends (context : OperationContext W) (k v : string)
    (labels : list Label) (e : Env W) :
  fst (setOperation context k v labels e) <> OutOfFuel.
Proof.
  rewrite setOperation_outcome.
  now destruct (fst (issues_setLabels _ _ _ _ _ _)).
Qed.

Lemma removeOperation_ends (context : OperationContext W) (k : string)
    (labels : list Label) (e : Env W) :
  fst (removeOperation context k labels e) <> OutOfFuel.
Proof.
  destruct (existingLabelOf context k labels) as [existing|] eqn:Ex.
  - rewrite (removeOperation_outcome context k labels e existing Ex).
    now destruct (fst (issues_setLabels _ _ _ _ _ _)).
  - now rewrite (removeOperation_nothing context k labels e Ex).
Qed.

(** X15: the checks come first.  Unless the inputs pass every check of
    [run] (the operation is given and is one of the four, the issue number
    resolves, the flag is a boolean, the repository has an owner and a
    name, the key is given unless the operation is get-all, the value is
    given for set, the token is given), the run sends no request and logs
    nothing: all it does is one call of [core.setFailed] and the output
    success = false. *)
Theorem run_checks_first (s : RunState W) :
  (exists operation issueNumber deleteUnused owner repo,
      accepted inputs payload operation issueNumber deleteUnused owner repo) \/
  (exists message,
      run inputs payload getOctokit s
      = (Done tt,
         {| env := env s;
            labelReads := labelReads s;
            outputs := (outputs s ++ [("success", OutBoolean false)])%list;
            failures := (failures s ++ [message])%list |})).
Proof.
  destruct (runBody_checks s) as [(error & E)|(op & n & f & o & r & A & _)].
  - right. exists (failureMessage error). now rewrite run_of_body, E.
  - left. now exists op, n, f, o, r.
Qed.

(** X16: [run] never throws, and every run reports once: it sets the
    output success exactly once, as its last output, after at most one
    other output (value or state); it calls [core.setFailed] at most once,
    and then success is false and there is no other output. *)
Theorem run_reports_once (s : RunState W) :
  match fst (run inputs payload getOctokit s) with
  | Failed _ => False
  | Beyond => False
  | Done _ =>
      exists (b : bool) (details : list (string * OutputValue))
             (fails : list string),
        outputs (snd (run inputs payload getOctokit s))
        = (outputs s ++ details ++ [("success", OutBoolean b)])%list /\
        (details = [] \/
         exists v, details = [("value", v)] \/ details = [("state", v)]) /\
        failures (snd (run inputs payload getOctokit s))
        = (failures s ++ fails)%list /\
        (fails = [] \/
         exists message, fails = [message] /\ b = false /\ details = [])
  end.
Proof.
  destruct (runBody_checks s) as [(error & E)|(op & n & f & o & r & A & _)].
  - rewrite run_of_body, E. cbn [fst snd reported outputs failures].
    exists false, [], [failureMessage error].
      repeat split; try reflexivity; [now left | right; now eexists].
  - rewrite (run_accepted s op n f o r A).
    destruct A as (_ & Hres & _ & _ & _ & _ & Hin & _).
    destruct (issues_listLabelsOnIssue _ _ _ _ _) as [error|labels].
    + cbn [fst snd outputs failures].
      exists false, [], [failureMessage error].
      repeat split; try reflexivity; [now left | right; now eexists].
    + simpl in Hin. destruct Hin as [<-|[<-|[<-|[<-|[]]]]].
      * rewrite dispatch_set.
        pose proof (setOperation_ends
                      (contextOf inputs getOctokit n f o r)
                      (key_input inputs) (value_input inputs) labels
                      (env (afterRead inputs s "set" n o r labels))) as T.
        destruct (setOperation _ _ _ _ _) as [[output|error|] e];
          cbn [fst snd reported outputs failures afterRead] in *.
        -- exists (success output), [], []. rewrite app_nil_r.
           repeat split; now left.
        -- exists false, [], [failureMessage error].
      repeat split; try reflexivity; [now left | right; now eexists].
        -- contradiction.
      * rewrite dispatch_remove.
        pose proof (removeOperation_ends
                      (contextOf inputs getOctokit n f o r)
                      (key_input inputs) labels
                      (env (afterRead inputs s "remove" n o r labels)))
          as T.
        destruct (removeOperation _ _ _ _) as [[output|error|] e];
          cbn [fst snd reported outputs failures afterRead] in *.
        -- exists (success output), [], []. rewrite app_nil_r.
           repeat split; now left.
        -- exists false, [], [failureMessage error].
      repeat split; try reflexivity; [now left | right; now eexists].
        -- contradiction.
      * rewrite dispatch_get. cbn [fst snd outputs failures afterRead].
        destruct (if (key_input inputs =? "__proto__") then None else _)
          as [v|]; [|destruct (JsObject.inPrototype (key_input inputs))].
        -- exists true, [("value", OutString v)], [].
           rewrite app_nil_r.
           repeat split; [right; eexists; now left | now left].
        -- exists true, [("value", OutInherited (key_input inputs))], [].
           rewrite app_nil_r.
           repeat split; [right; eexists; now left | now left].
        -- exists false, [("value", OutNull)], [].
           rewrite app_nil_r.
           repeat split; [right; eexists; now left | now left].
      * rewrite dispatch_getAll. cbn [fst snd outputs failures afterRead].
        eexists true, [("state", _)], []. rewrite app_nil_r.
        repeat split; [right; eexists; now right | now left].
Qed.

(** X17: when the labels cannot be read, the run stops there: the four
    lines are logged and the request is sent, no call of the operations
    follows, the message of the failure is handed to [core.setFailed] as
    it is, and success is set to false. *)
Theorem run_read_failure (s : RunState W) operation issueNumber deleteUnused
    owner repo (error : Thrown) :
  accepted inputs payload operation issueNumber deleteUnused owner repo ->
  issues_listLabelsOnIssue (getOctokit (github_token_input inputs))
    (world (env s)) owner repo issueNumber = inl error ->
  run inputs payload getOctokit s
  = (Done tt,
     {| env :=
          {| world := world (env s);
             calls := calls (env s);
             log := (log (env s)
                     ++ preamble inputs operation issueNumber owner repo)%list |};
        labelReads := (labelReads s ++ [(owner, repo, issueNumber)])%list;
        outputs := (outputs s ++ [("success", OutBoolean false)])%list;
        failures :=
          (failures s
           ++ [match error with
               | ErrorObject message => message
               | OtherValue => "An unknown error occurred"
               end])%list |}).
Proof.
  intros A R. rewrite (run_accepted s _ _ _ _ _ A), R. reflexivity.
Qed.


(** X19: a set through [run].  On accepted inputs with operation set,
    once the labels are read the run is the run of [setOperation] on those
    labels, with the key and the value of the inputs; when the service
    accepts the list-replace call the output is success = true and the run
    is not failed, and when it rejects the call the message of the failure
    is handed to [core.setFailed] as it is and success is false. *)
Theorem run_set (s : RunState W) issueNumber deleteUnused owner repo
    (currentLabels : list Label) :
  accepted inputs payload "set" issueNumber deleteUnused owner repo ->
  issues_listLabelsOnIssue (getOctokit (github_token_input inputs))
    (world (env s)) owner repo issueNumber = inr currentLabels ->
  let context := contextOf inputs getOctokit issueNumber deleteUnused owner repo in
  let read :=
    afterRead inputs s "set" issueNumber owner repo currentLabels in
  let s' := snd (run inputs payload getOctokit s) in
  fst (run inputs payload getOctokit s) = Done tt /\
  env s'
  = snd (setOperation context (key_input inputs) (value_input inputs)
           currentLabels (env read)) /\
  labelReads s' = (labelReads s ++ [(owner, repo, issueNumber)])%list /\
  match fst (issues_setLabels (rest (getOctokit (github_token_input inputs)))
               (world (env s)) owner repo issueNumber
               (newLabelsOf context (key_input inputs) (value_input inputs)
                  currentLabels)) with
  | None =>
      outputs s' = (outputs s ++ [("success", OutBoolean true)])%list /\
      failures s' = failures s
  | Some error =>
      outputs s' = (outputs s ++ [("success", OutBoolean false)])%list /\
      failures s'
      = (failures s
         ++ [match error with
             | ErrorObject message => message
             | OtherValue => "An unknown error occurred"
             end])%list
  end.
Proof.
  intros A R. cbv zeta.
  rewrite (run_accepted s _ _ _ _ _ A), R, dispatch_set.
  pose proof (setOperation_outcome
                (contextOf inputs getOctokit issueNumber deleteUnused owner repo)
                (key_input inputs) (value_input inputs) currentLabels
                (env (afterRead inputs s "set" issueNumber owner repo
                        currentLabels))) as O.
  cbn [afterRead env world contextOf octokit Operations.owner Operations.repo
       Operations.issueNumber] in O.
  destruct (setOperation _ _ _ _ _) as [[output|error|] e];
    cbn [fst snd] in *;
    destruct (fst (issues_setLabels _ _ _ _ _ _)) as [error'|];
      try discriminate.
  - injection O as ->. repeat split.
  - injection O as ->. repeat split.
Qed.

(** X20: a remove through [run].  On accepted inputs with operation
    remove, once the labels are read the run is the run of
    [removeOperation] on those labels; when no label decodes to the key,
    no further request is sent, success is false, and the run is not
    failed: [core.setFailed] is not called. *)
Theorem run_remove (s : RunState W) issueNumber deleteUnused owner repo
    (currentLabels : list Label) :
  accepted inputs payload "remove" issueNumber deleteUnused owner repo ->
  issues_listLabelsOnIssue (getOctokit (github_token_input inputs))
    (world (env s)) owner repo issueNumber = inr currentLabels ->
  let context := contextOf inputs getOctokit issueNumber deleteUnused owner repo in
  let read :=
    afterRead inputs s "remove" issueNumber owner repo currentLabels in
  let s' := snd (run inputs payload getOctokit s) in
  fst (run inputs payload getOctokit s) = Done tt /\
  env s' = snd (removeOperation context (key_input inputs) currentLabels
                  (env read)) /\
  labelReads s' = (labelReads s ++ [(owner, repo, issueNumber)])%list /\
  ((forall label parsed,
       In label currentLabels ->
       parseStateLabel (name label) (prefix_input inputs)
         (separator_input inputs) = Some parsed ->
       Labels.key parsed <> key_input inputs) ->
   env s' = env read /\
   outputs s' = (outputs s ++ [("success", OutBoolean false)])%list /\
   failures s' = failures s).
Proof.
  intros A R. cbv zeta.
  pose (context := contextOf inputs getOctokit issueNumber deleteUnused owner repo).
  rewrite (run_accepted s _ _ _ _ _ A), R, dispatch_remove.
  fold context.
  pose proof (removeOperation_ends context (key_input inputs) currentLabels
                (env (afterRead inputs s "remove" issueNumber owner repo
                        currentLabels))) as T.
  assert (N :
    (forall label parsed,
        In label currentLabels ->
        parseStateLabel (name label) (prefix_input inputs)
          (separator_input inputs) = Some parsed ->
        Labels.key parsed <> key_input inputs) ->
    forall e, removeOperation context (key_input inputs) currentLabels e
              = (Returned {| success := false; value := None; state := None |},
                 e)).
  { intros H e. apply removeOperation_nothing. apply find_absent.
    intros label Hl. apply (valueFor_decodesTo context).
    exact (proj1 (not_decoding context _ currentLabels) H label Hl). }
  destruct (removeOperation _ _ _ _) as [[output|error|] e] eqn:E;
    cbn [fst snd] in *; try contradiction.
  - split; [reflexivity|]. split; [reflexivity|]. split; [reflexivity|].
    intros Habsent. rewrite (N Habsent) in E. injection E as <- <-.
    repeat split.
  - split; [reflexivity|]. split; [reflexivity|]. split; [reflexivity|].
    intros Habsent. rewrite (N Habsent) in E. discriminate.
Qed.

(** X21: a get-all through [run].  On accepted inputs with operation
    get-all, once the labels are read the run sends no further request and
    is not failed; the output state is the very text that was logged on
    the line of the current state, the JSON text of the state read off the
    labels, and success is true, whatever the labels are. *)
Theorem run_get_all (s : RunState W) issueNumber deleteUnused owner repo
    (currentLabels : list Label) :
  accepted inputs payload "get-all" issueNumber deleteUnused owner repo ->
  issues_listLabelsOnIssue (getOctokit (github_token_input inputs))
    (world (env s)) owner repo issueNumber = inr currentLabels ->
  let text :=
    Json.stringify
      (extractStateLabels currentLabels (prefix_input inputs)
         (separator_input inputs)) in
  run inputs payload getOctokit s
  = (Done tt,
     {| env :=
          {| world := world (env s);
             calls := calls (env s);
             log := (log (env s)
                     ++ preamble inputs "get-all" issueNumber owner repo
                     ++ [Info ("Current state: " ++ text)])%list |};
        labelReads := (labelReads s ++ [(owner, repo, issueNumber)])%list;
        outputs := (outputs s ++ [("state", OutString text);
                                  ("success", OutBoolean true)])%list;
        failures := failures s |}).
Proof.
  intros A R. cbv zeta.
  rewrite (run_accepted s _ _ _ _ _ A), R, dispatch_getAll.
  reflexivity.
Qed.

End RunFacts.

(** The inputs of the fixtures pass the checks. *)
Lemma mockInputs_accepted (operation k v : string) :
  In operation ["set"; "remove"; "get"; "get-all"] ->
  k <> "" -> v <> "" ->
  accepted (MainFixtures.mockInputs operation k v) MainFixtures.mockPayload
    operation (JsNumber.Int 123) false "test-owner" "test-repo".
Proof.
  intros Hin Hk Hv. unfold accepted.
  split; [reflexivity|]. split; [reflexivity|]. split; [reflexivity|].
  split; [now exists []|]. split; [discriminate|]. split; [discriminate|].
  split; [exact Hin|]. split; [intros _; exact Hk|].
  split; [intros _; exact Hv|]. discriminate.
Qed.

Lemma run_read_failure_witness :
  run (MainFixtures.mockInputs "get" "test" "test-value")
    MainFixtures.mockPayload
    (MainFixtures.mockClient (inl (ErrorObject "API Error: Not Found")) None)
    MainFixtures.mockState
  = (Done tt,
     {| env :=
          {| world := Fixtures.mockWorld;
             calls := [];
             log := [Info "Performing operation: get";
                     Info "Issue number: 123";
                     Info "Repository: test-owner/test-repo";
                     Info "Prefix: state, Separator: ::"] |};
        labelReads := [("test-owner", "test-repo", JsNumber.Int 123)];
        outputs := [("success", OutBoolean false)];
        failures := ["API Error: Not Found"] |}).
Proof.
  apply (run_read_failure (MainFixtures.mockInputs "get" "test" "test-value")
           MainFixtures.mockPayload
           (MainFixtures.mockClient (inl (ErrorObject "API Error: Not Found"))
              None)
           MainFixtures.mockState "get" (JsNumber.Int 123) false
           "test-owner" "test-repo" (ErrorObject "API Error: Not Found")).
  - apply mockInputs_accepted; [simpl; auto | discriminate | discriminate].
  - reflexivity.
Defined.


Lemma run_set_witness :
  let inputs := MainFixtures.mockInputs "set" "test" "value" in
  let client :=
    MainFixtures.mockClient (inr Fixtures.mockLabels)
      (Some (ErrorObject "Network Error")) in
  let s' :=
    snd (run inputs MainFixtures.mockPayload client MainFixtures.mockState) in
  calls (env s')
  = [SetLabels "test-owner" "test-repo" (JsNumber.Int 123)
       ["bug"; "state::step::1"; "state::status::pending"; "enhancement";
        "state::test::value"]] /\
  outputs s' = [("success", OutBoolean false)] /\
  failures s' = ["Network Error"].
Proof.
  cbv zeta.
  destruct (run_set (MainFixtures.mockInputs "set" "test" "value")
              MainFixtures.mockPayload
              (MainFixtures.mockClient (inr Fixtures.mockLabels)
                 (Some (ErrorObject "Network Error")))
              MainFixtures.mockState (JsNumber.Int 123) false
              "test-owner" "test-repo" Fixtures.mockLabels
              (mockInputs_accepted "set" "test" "value"
                 (or_introl eq_refl) ltac:(discriminate) ltac:(discriminate))
              eq_refl)
    as (_ & Henv & _ & Hout & Hfail).
  rewrite Henv. split; [reflexivity|]. split; [exact Hout | exact Hfail].
Defined.

Lemma run_remove_witness :
  let inputs := MainFixtures.mockInputs "remove" "non-existent" "test-value" in
  let client := MainFixtures.mockClient (inr Fixtures.mockLabels) None in
  let s' :=
    snd (run inputs MainFixtures.mockPayload client MainFixtures.mockState) in
  calls (env s') = [] /\
  outputs s' = [("success", OutBoolean false)] /\
  failures s' = [].
Proof.
  cbv zeta.
  destruct (run_remove
              (MainFixtures.mockInputs "remove" "non-existent" "test-value")
              MainFixtures.mockPayload
              (MainFixtures.mockClient (inr Fixtures.mockLabels) None)
              MainFixtures.mockState (JsNumber.Int 123) false
              "test-owner" "test-repo" Fixtures.mockLabels
              (mockInputs_accepted "remove" "non-existent" "test-value"
                 (or_intror (or_introl eq_refl))
                 ltac:(discriminate) ltac:(discriminate))
              eq_refl)
    as (_ & _ & _ & H).
  destruct H as (Henv & Hout & Hfail).
  - intros label parsed Hl. simpl in Hl.
    destruct Hl as [<-|[<-|[<-|[<-|[]]]]]; vm_compute;
      intros P; inversion P; discriminate.
  - rewrite Henv. split; [reflexivity|]. split; [exact Hout | exact Hfail].
Defined.

Lemma run_get_all_witness :
  let s' :=
    snd (run (MainFixtures.mockInputs "get-all" "test-key" "test-value")
           MainFixtures.mockPayload
           (MainFixtures.mockClient (inr Fixtures.mockLabels) None)
           MainFixtures.mockState) in
  outputs s'
  = [("state",
      OutString
        ("{" ++ Json.quoteJSONString "step" ++ ":" ++ Json.quoteJSONString "1"
         ++ "," ++ Json.quoteJSONString "status" ++ ":"
         ++ Json.quoteJSONString "pending" ++ "}"));
     ("success", OutBoolean true)] /\
  calls (env s') = [] /\ failures s' = [].
Proof.
  cbv zeta.
  rewrite (run_get_all
             (MainFixtures.mockInputs "get-all" "test-key" "test-value")
             MainFixtures.mockPayload
             (MainFixtures.mockClient (inr Fixtures.mockLabels) None)
             MainFixtures.mockState (JsNumber.Int 123) false
             "test-owner" "test-repo" Fixtures.mockLabels
             (mockInputs_accepted "get-all" "test-key" "test-value"
                (or_intror (or_intror (or_intror (or_introl eq_refl))))
                ltac:(discriminate) ltac:(discriminate))
             eq_refl).
  repeat split.
Defined.

(** An issue number beyond the largest double is infinite, and the run
    goes on with it: the requests carry it as it is. *)
Example run_infinite_issue_number :
  let s' :=
    snd (run {| operation_input := inr "set";
                issue_number_input := MainFixtures.longIssueNumber;
                github_token_input := "fake-token"; separator_input := "::";
                repository_input := "test-owner/test-repo";
                prefix_input := "state"; key_input := "step";
                value_input := "2";
                delete_unused_labels_input := inr true |}
           MainFixtures.mockPayload
           (MainFixtures.mockClient (inr Fixtures.mockLabels) None)
           MainFixtures.mockState) in
  labelReads s' = [("test-owner", "test-repo", JsNumber.Infinity false)] /\
  calls (env s')
  = [SetLabels "test-owner" "test-repo" (JsNumber.Infinity false)
       ["bug"; "state::status::pending"; "enhancement"; "state::step::2"];
     ListForRepo "test-owner" "test-repo" "state::step::1" "all" 100 1;
     DeleteLabel "test-owner" "test-repo" "state::step::1"] /\
  outputs s' = [("success", OutBoolean true)] /\
  failures s' = [].
Proof. vm_compute. repeat split. Qed.

(** The checks of the test suite. *)
Example run_rejections :
  let failed := fun inputs =>
    failures (snd (run inputs MainFixtures.mockPayload
                     (MainFixtures.mockClient (inr Fixtures.mockLabels) None)
                     MainFixtures.mockState)) in
  failed (MainFixtures.mockInputs "invalid-operation" "test-key" "test-value")
  = ["Invalid operation: invalid-operation. Must be: set, remove, get, get-all"]
  /\
  failed (MainFixtures.mockInputs "get" "" "test-value")
  = ["Key is required for operation: get"] /\
  failed (MainFixtures.mockInputs "set" "test-key" "")
  = ["Value is required for operation: set"] /\
  failed {| operation_input := inr "get"; issue_number_input := "123";
            github_token_input := "fake-token"; separator_input := "::";
            repository_input := "invalid-repo-format";
            prefix_input := "state"; key_input := "test-key";
            value_input := "test-value";
            delete_unused_labels_input := inr false |}
  = ["Invalid repository format. Expected: owner/repo"] /\
  failed {| operation_input := inr "get"; issue_number_input := "not-a-number";
            github_token_input := "fake-token"; separator_input := "::";
            repository_input := "test-owner/test-repo";
            prefix_input := "state"; key_input := "test-key";
            value_input := "test-value";
            delete_unused_labels_input := inr false |}
  = ["Invalid issue number provided in input"] /\
  failed (MainFixtures.mockInputs "get-all" "" "") = [].
Proof. vm_compute. repeat split. Qed.
